(** * youtube-comment-scraper: period grouping and chunk/analyse/merge pipeline

    A shallow embedding of [comment-analyzer.py] (class [CommentAnalyzer]) and
    [comment-grouper.py], with the properties of the batching, period
    segmentation and merge steps, and of [comment-scraper.py] (the listing
    loops and the table they build).

    Conventions.
    - A Python [int] is a [Z]; [len(s)] is [String.length s]; a Python [str] is
      a [string]; a Python list is a [list].
    - A pandas DataFrame is the list of its rows, in row order; a
      [Timestamp] is a [Z] (its integer value), compared as pandas compares
      timestamps.
    - The text-generation service and [print] are effects: the analyzer's
      methods run in a small state-and-exception monad over the console
      output and the number of requests made so far. *)

From Stdlib Require Import String Ascii DecimalString DecimalNat.
From Stdlib Require Import List ZArith Lia Bool.
From Stdlib Require Import Sorted Permutation.
Import ListNotations.

Local Open Scope string_scope.
Local Open Scope Z_scope.
Local Open Scope list_scope.

(** [str(n)] for a non-negative Python [int]. *)
Definition str_of_nat (n : nat) : string := NilEmpty.string_of_uint (Nat.to_uint n).

(** The line feed, and Python's [sep.join(parts)] is [String.concat sep parts]. *)
Definition LF : string := String (ascii_of_nat 10) EmptyString.

(** One entry of [grouped_comments.json], the document the grouper writes and
    the analyzer reads.  [T] is the type of the two ends of [date_range]:
    timestamps while grouping, their renderings once saved. *)
Record video_record : Type := mk_video_record {
  vr_video_title : option string;
  vr_video_id : string;
  vr_video_url : string
}.

Record period_data (T : Type) : Type := mk_period_data {
  comments : list string;
  video_count : nat;
  comment_count : nat;
  date_range : T * T;
  unique_authors : nat;
  videos : list video_record
}.
Arguments mk_period_data {T}.
Arguments comments {T}.
Arguments video_count {T}.
Arguments comment_count {T}.
Arguments date_range {T}.
Arguments unique_authors {T}.
Arguments videos {T}.

(* ================================================================== *)
(** * comment-analyzer.py *)
(* ================================================================== *)

Module Analyzer.

(** ** The batcher *)

(** [comment_tokens = len(comment) // 4], the rough size estimate
    (1 token is about 4 characters). *)
Definition comment_tokens (comment : string) : Z :=
  Z.of_nat (String.length comment) / 4.

(** The three loop variables of [chunk_comments]. *)
Record chunk_state : Type := mk_chunk_state {
  chunks : list (list string);
  current_chunk : list string;
  current_length : Z
}.

Definition chunk_init : chunk_state :=
  {| chunks := []; current_chunk := []; current_length := 0 |}.

(** One iteration of [for comment in comments]. *)
Definition chunk_step (max_tokens : Z) (st : chunk_state) (comment : string)
  : chunk_state :=
  let comment_tokens := comment_tokens comment in
  if current_length st + comment_tokens >? max_tokens then
    {| chunks := chunks st ++ [current_chunk st];
       current_chunk := [comment];
       current_length := comment_tokens |}
  else
    {| chunks := chunks st;
       current_chunk := current_chunk st ++ [comment];
       current_length := current_length st + comment_tokens |}.

(** [if current_chunk: chunks.append(current_chunk)], then [return chunks]. *)
Definition chunk_finish (st : chunk_state) : list (list string) :=
  match current_chunk st with
  | [] => chunks st
  | _ :: _ => chunks st ++ [current_chunk st]
  end.

Definition chunk_comments (comments : list string) (max_tokens : Z)
  : list (list string) :=
  chunk_finish (fold_left (chunk_step max_tokens) comments chunk_init).

(** The default of the [max_tokens] parameter. *)
Definition default_max_tokens : Z := 3000.

(** Aggregate estimated size of a batch. *)
Definition chunk_tokens (chunk : list string) : Z :=
  fold_right (fun c acc => comment_tokens c + acc) 0 chunk.

(** A batch respects the limit: its aggregate size is within it, or it is
    one record whose own size is already over it. *)
Definition within_limit (max_tokens : Z) (chunk : list string) : Prop :=
  chunk_tokens chunk <= max_tokens \/
  exists c, chunk = [c] /\ comment_tokens c > max_tokens.

(** Every oversize record of the batch is its only member. *)
Definition oversize_alone (max_tokens : Z) (chunk : list string) : Prop :=
  forall c, In c chunk -> comment_tokens c > max_tokens -> chunk = [c].

(** The invariant of the loop of [chunk_comments] behind the size bound:
    [current_length] is the size of the open batch; the open batch and
    every closed batch is empty or respects the limit; an oversize record
    is alone in its batch. *)
Record size_inv (max_tokens : Z) (st : chunk_state) : Prop := mk_size_inv {
  inv_length : current_length st = chunk_tokens (current_chunk st);
  inv_current : current_chunk st = [] \/ within_limit max_tokens (current_chunk st);
  inv_closed : forall b, In b (chunks st) -> b = [] \/ within_limit max_tokens b;
  inv_current_alone : oversize_alone max_tokens (current_chunk st);
  inv_closed_alone : forall b, In b (chunks st) -> oversize_alone max_tokens b
}.

(** A comment of 12004 characters: 3001 estimated tokens. *)
Definition long_comment : string :=
  string_of_list_ascii (repeat "a"%char (Z.to_nat 12004)).

(** ** Effects: console output, the text-generation service, exceptions *)

(** A Python call either returns a value or raises an exception (a subclass
    of [Exception]); [Raised e] carries [str(e)]. *)
Inductive outcome (A : Type) : Type :=
| Returned (a : A)
| Raised (e : string).
Arguments Returned {A}.
Arguments Raised {A}.

(** What a run has done so far: the lines it printed, and the number of
    requests it sent to the service. *)
Record world : Type := mk_world {
  stdout : list string;
  requests : nat
}.

(** The messages of one chat request ([temperature] is a constant of the
    source and plays no part here). *)
Record request : Type := mk_request {
  model : string;
  system_content : string;
  user_content : string
}.

(** The [openai] package, seen from the analyzer: both entry points take a
    request and, the [n]-th time the service is called, either give
    [response.choices[0].message.content] or raise (transport errors, a
    malformed response, a removed entry point). *)
Record openai : Type := mk_openai {
  chat_completions_create : request -> nat -> outcome string;
  ChatCompletion_create : request -> nat -> outcome string
}.

Definition M (A : Type) : Type := world -> outcome A * world.

Definition ret {A} (a : A) : M A := fun w => (Returned a, w).

Definition bind {A B} (m : M A) (k : A -> M B) : M B :=
  fun w =>
    match m w with
    | (Returned a, w') => k a w'
    | (Raised e, w') => (Raised e, w')
    end.

Declare Scope py_scope.
Delimit Scope py_scope with py.
Notation "x <- m ;; k" := (bind m (fun x => k))
  (at level 100, m at next level, right associativity) : py_scope.
Notation "m ;; k" := (bind m (fun _ => k))
  (at level 100, right associativity) : py_scope.
Local Open Scope py_scope.

(** [print(line)]. *)
Definition print (line : string) : M unit :=
  fun w => (Returned tt, {| stdout := stdout w ++ [line]; requests := requests w |}).

(** A call of one of the service's entry points. *)
Definition call (create : request -> nat -> outcome string) (r : request) : M string :=
  fun w => (create r (requests w),
            {| stdout := stdout w; requests := S (requests w) |}).

(** [try: body  except Exception as e: handler(str(e))]. *)
Definition try_except {A} (body : M A) (handler : string -> M A) : M A :=
  fun w =>
    match body w with
    | (Returned a, w') => (Returned a, w')
    | (Raised e, w') => handler e w'
    end.

(** ** The summarizer and the merger *)

(** [self.analysis_template.format(comments=...)]. *)
Definition analysis_template (comments : string) : string :=
  "
        Analyze the following group of YouTube comments and identify:
        1. Main Topics: What are the most discussed subjects?
        2. Sentiment: What's the overall mood of the discussions?
        3. Common Issues: What problems or concerns are frequently mentioned?
        4. Notable Feedback: What constructive feedback or suggestions appear often?
        5. Community Engagement: How are people interacting with each other?

        Comments:
        " ++ comments ++ "

        Please structure your analysis and be specific about patterns you observe.
        ".

Definition chunk_request (comments : list string) : request :=
  {| model := "gpt-4o";
     system_content :=
       "You are analyzing YouTube comments to identify patterns and insights.";
     user_content := analysis_template (String.concat LF comments) |}.

(** The summary [analyze_period] returns. *)
Record period_metadata : Type := mk_period_metadata {
  pm_comment_count : nat;
  pm_video_count : nat;
  pm_unique_authors : nat;
  pm_date_range : string * string
}.

Record period_analysis : Type := mk_period_analysis {
  pa_period_metadata : period_metadata;
  analysis : string
}.

Section WithService.
Variable api : openai.

Definition analyze_chunk (comments : list string) : M string :=
  try_except
    (response <- call (chat_completions_create api) (chunk_request comments) ;;
     ret response)
    (fun e =>
       print ("Error analyzing chunk: " ++ e) ;;
       ret "").

(** [merge_prompt.format(analyses=...)]. *)
Definition merge_prompt (analyses : string) : string :=
  "
        Combine these separate analyses into a single coherent summary,
        eliminating redundancies and highlighting the most significant patterns:

        " ++ analyses ++ "
        
        Provide a unified analysis that captures the key insights across all chunks.
        ".

Definition merge_request (analyses : list string) : request :=
  {| model := "gpt-4";
     system_content :=
       "You are synthesizing multiple analyses into a coherent summary.";
     user_content :=
       merge_prompt (String.concat (LF ++ LF ++ "---" ++ LF ++ LF) analyses) |}.

Definition merge_analyses (analyses : list string) : M string :=
  match analyses with
  | [] => ret "No analysis available."
  | first :: _ =>
      if (List.length analyses =? 1)%nat then ret first
      else
        try_except
          (response <- call (ChatCompletion_create api) (merge_request analyses) ;;
           ret response)
          (fun e =>
             print ("Error merging analyses: " ++ e) ;;
             ret (String.concat (LF ++ LF) analyses))
  end.

(** [for i, chunk in enumerate(chunks, 1)], from index [i] on;
    [n_chunks] is [len(chunks)] of the whole list.  An empty analysis is
    not kept.  ([time.sleep(1)] only passes time.) *)
Fixpoint analyze_chunks (n_chunks i : nat) (chunks : list (list string))
    (chunk_analyses : list string) : M (list string) :=
  match chunks with
  | [] => ret chunk_analyses
  | chunk :: rest =>
      print ("Analyzing chunk " ++ str_of_nat i ++ "/" ++ str_of_nat n_chunks
             ++ " (" ++ str_of_nat (List.length chunk) ++ " comments)") ;;
      analysis <- analyze_chunk chunk ;;
      analyze_chunks n_chunks (S i) rest
        (if String.eqb analysis "" then chunk_analyses
         else chunk_analyses ++ [analysis])
  end.

Definition analyze_period (period_data : period_data string) : M period_analysis :=
  let comments := comments period_data in
  let chunks := chunk_comments comments default_max_tokens in
  chunk_analyses <- analyze_chunks (List.length chunks) 1 chunks [] ;;
  final_analysis <- merge_analyses chunk_analyses ;;
  ret {| pa_period_metadata :=
           {| pm_comment_count := comment_count period_data;
              pm_video_count := video_count period_data;
              pm_unique_authors := unique_authors period_data;
              pm_date_range := date_range period_data |};
         analysis := final_analysis |}.
End WithService.

(** A service that is down: every request raises. *)
Definition service_down : openai :=
  {| chat_completions_create := fun _ _ => Raised "Connection error.";
     ChatCompletion_create := fun _ _ => Raised "Connection error." |}.

(** A service of the package's older interface, whose consolidation entry
    point answers with empty content; the newer entry point does not exist
    there, so using it raises. *)
Definition service_silent : openai :=
  {| chat_completions_create :=
       fun _ _ => Raised "module 'openai' has no attribute 'chat'";
     ChatCompletion_create := fun _ _ => Returned "" |}.

Definition fresh_world : world := {| stdout := []; requests := 0 |}.

(** [w] after one more request. *)
Definition after_request (w : world) : world :=
  {| stdout := stdout w; requests := S (requests w) |}.

(** [w] after one more request that failed and was reported on the console. *)
Definition after_failure (prefix e : string) (w : world) : world :=
  {| stdout := stdout w ++ [(prefix ++ e)%string]; requests := S (requests w) |}.

End Analyzer.

(* ================================================================== *)
(** * comment-grouper.py *)
(* ================================================================== *)

Module Grouper.

(** A row of the comments table [youtube_comments_*.csv]: one comment, with
    the video it was posted on.  [published_at] is the comment's own
    publication time; a missing [video_title] (NaN) is [None]. *)
Record comment_row : Type := mk_comment_row {
  author : string;
  text : string;
  likes : Z;
  published_at : Z;
  video_id : string;
  video_title : option string;
  video_url : string
}.

Definition DataFrame : Type := list comment_row.

(** ** pandas operations used by the grouper *)

Definition to_lower (c : ascii) : ascii :=
  let n := nat_of_ascii c in
  if ((65 <=? n) && (n <=? 90))%nat then ascii_of_nat (n + 32) else c.

Fixpoint lowercase (s : string) : string :=
  match s with
  | EmptyString => EmptyString
  | String c s' => String (to_lower c) (lowercase s')
  end.

(** [pat in s]: [pat] occurs in [s]. *)
Fixpoint str_find (pat s : string) : bool :=
  String.prefix pat s ||
  match s with
  | EmptyString => false
  | String _ s' => str_find pat s'
  end.

(** [Series.str.contains(pat, case=False, na=False)] on one cell, for a
    pattern without regular-expression operators. *)
Definition str_contains_nocase (pat : string) (cell : option string) : bool :=
  match cell with
  | Some s => str_find (lowercase pat) (lowercase s)
  | None => false
  end.

(** [sort_values(key)], ascending: insertion into the sorted suffix. *)
Fixpoint insert_sorted {A} (key : A -> Z) (x : A) (l : list A) : list A :=
  match l with
  | [] => [x]
  | y :: l' => if key x <=? key y then x :: l else y :: insert_sorted key x l'
  end.

Definition sort_values {A} (key : A -> Z) (l : list A) : list A :=
  fold_right (insert_sorted key) [] l.

(** [Series.unique()] / [drop_duplicates()]: the distinct values in order
    of first appearance; [seen] holds the values met so far. *)
Fixpoint unique_from {A} (eqb : A -> A -> bool) (seen l : list A) : list A :=
  match l with
  | [] => []
  | x :: l' =>
      if existsb (eqb x) seen then unique_from eqb seen l'
      else x :: unique_from eqb (x :: seen) l'
  end.

Definition unique {A} (eqb : A -> A -> bool) (l : list A) : list A :=
  unique_from eqb [] l.

(** [Series.nunique()]. *)
Definition nunique {A} (eqb : A -> A -> bool) (l : list A) : nat :=
  List.length (unique eqb l).

(** [Series.min()] and [Series.max()] of a non-empty column. *)
Definition series_min (l : list Z) : Z :=
  match l with [] => 0 | x :: l' => fold_left Z.min l' x end.
Definition series_max (l : list Z) : Z :=
  match l with [] => 0 | x :: l' => fold_left Z.max l' x end.

Definition option_eqb {A} (eqb : A -> A -> bool) (a b : option A) : bool :=
  match a, b with
  | Some x, Some y => eqb x y
  | None, None => true
  | _, _ => false
  end.

(** ** find_ama_dates *)

Definition is_ama (r : comment_row) : bool :=
  str_contains_nocase "AMA" (video_title r).

Definition find_ama_dates (df : DataFrame) : list Z :=
  let ama_videos := filter is_ama df in
  let ama_videos := sort_values published_at ama_videos in
  unique Z.eqb (map published_at ama_videos).

(** The number of distinct timestamps carried by marker-bearing rows. *)
Definition distinct_marker_timestamps (df : DataFrame) : nat :=
  List.length (nodup Z.eq_dec (map published_at (filter is_ama df))).

(** The number of distinct marker-bearing videos. *)
Definition distinct_marker_videos (df : DataFrame) : nat :=
  nunique String.eqb (map video_id (filter is_ama df)).

(** ** assign_periods *)

Record period_label : Type := mk_period_label {
  p_start : Z;
  p_end : Z;
  label : string
}.

Definition in_period (p : period_label) (t : Z) : bool :=
  (p_start p <=? t) && (t <? p_end p).

(** A row of the table with its [period] column. *)
Definition labelled_row : Type := (comment_row * option string)%type.

Section WithCalendar.
(** [Timestamp.strftime(format)]. *)
Variable strftime : Z -> string -> string.

(** The label of period number [i] (from 0). *)
Definition make_label (i : nat) (start_date end_date : Z) : period_label :=
  {| p_start := start_date;
     p_end := end_date;
     label := "Period " ++ str_of_nat (i + 1) ++ ": "
              ++ strftime start_date "%Y-%m-%d" ++ " to "
              ++ strftime end_date "%Y-%m-%d" |}.

(** [for i in range(len(ama_dates)-1)]. *)
Definition period_labels (ama_dates : list Z) : list period_label :=
  map (fun i => make_label i (nth i ama_dates 0) (nth (i + 1) ama_dates 0))
      (seq 0 (List.length ama_dates - 1)).

(** [df.loc[mask, 'period'] = period['label']] for one period. *)
Definition assign_one (rows : list labelled_row) (period : period_label)
  : list labelled_row :=
  map (fun row : labelled_row =>
         if in_period period (published_at (fst row))
         then (fst row, Some (label period))
         else row)
      rows.

Definition assign_periods (df : DataFrame) (ama_dates : list Z) : list labelled_row :=
  fold_left assign_one (period_labels ama_dates) (map (fun r => (r, None)) df).

(** The [period] cell of one row after the loop over [periods], from its
    value [cell] before: the label of the last period that holds [t]. *)
Definition period_cell (periods : list period_label) (t : Z) (cell : option string)
  : option string :=
  fold_left (fun cell p => if in_period p t then Some (label p) else cell)
            periods cell.

(** ** group_comments_by_period *)

Definition group_period (df : list labelled_row) (period : string)
  : period_data Z :=
  let period_data :=
    map fst (filter (fun row : labelled_row =>
                       option_eqb String.eqb (snd row) (Some period)) df) in
  {| comments := map text period_data;
     video_count := nunique String.eqb (map video_id period_data);
     comment_count := List.length period_data;
     date_range := (series_min (map published_at period_data),
                    series_max (map published_at period_data));
     unique_authors := nunique String.eqb (map author period_data);
     videos :=
       unique (fun a b =>
                 option_eqb String.eqb (vr_video_title a) (vr_video_title b)
                 && String.eqb (vr_video_id a) (vr_video_id b)
                 && String.eqb (vr_video_url a) (vr_video_url b))
              (map (fun r => {| vr_video_title := video_title r;
                                vr_video_id := video_id r;
                                vr_video_url := video_url r |}) period_data) |}.

(** The [periods] dictionary, in insertion order: one entry per value of
    the [period] column that is not missing. *)
Definition group_comments_by_period (df : list labelled_row)
  : list (string * period_data Z) :=
  flat_map (fun period : option string =>
              match period with
              | None => []
              | Some p => [(p, group_period df p)]
              end)
           (unique (option_eqb String.eqb) (map snd df)).

(** ** save_grouped_data and main *)

(** [save_grouped_data]: the document written to [output_path], the
    periods with both ends of [date_range] rendered. *)
Definition save_grouped_data (periods : list (string * period_data Z))
  : list (string * period_data string) :=
  map (fun entry : string * period_data Z =>
         let data := snd entry in
         (fst entry,
          {| comments := comments data;
             video_count := video_count data;
             comment_count := comment_count data;
             date_range := (strftime (fst (date_range data)) "%Y-%m-%d %H:%M:%S",
                            strftime (snd (date_range data)) "%Y-%m-%d %H:%M:%S");
             unique_authors := unique_authors data;
             videos := videos data |}))
      periods.

(** What a run of [main] leaves behind: the lines printed and, when it got
    that far, the content written to [grouped_comments.json]. *)
Record run : Type := mk_run {
  printed : list string;
  written : option (list (string * period_data string))
}.

Definition main (df : DataFrame) : run :=
  let ama_dates := find_ama_dates df in
  if (List.length ama_dates <? 2)%nat then
    {| printed := ["Error: Need at least 2 AMA videos to create periods"];
       written := None |}
  else
    let df_with_periods := assign_periods df ama_dates in
    let periods := group_comments_by_period df_with_periods in
    {| printed :=
         ("Grouped " ++ str_of_nat (List.length df) ++ " comments into "
          ++ str_of_nat (List.length periods) ++ " periods")%string
         :: flat_map (fun entry : string * period_data Z =>
                        [(LF ++ fst entry)%string;
                         ("Comments: " ++ str_of_nat (comment_count (snd entry)))%string;
                         ("Videos: " ++ str_of_nat (video_count (snd entry)))%string;
                         ("Unique authors: "
                          ++ str_of_nat (unique_authors (snd entry)))%string])
                     periods;
       written := Some (save_grouped_data periods) |}.

End WithCalendar.

(** A calendar rendering for examples: the timestamp's digits. *)
Definition digits_strftime (t : Z) (_ : string) : string :=
  str_of_nat (Z.to_nat t).

Definition row_at (vid title : string) (t : Z) : comment_row :=
  {| author := "user"; text := "hello"; likes := 0; published_at := t;
     video_id := vid; video_title := Some title;
     video_url := "https://www.youtube.com/watch?v=" ++ vid |}.

(** Three marker times and a table of comments around them. *)
Definition three_dates : list Z := [10; 20; 30].
Definition sample_table : DataFrame :=
  [row_at "v1" "AMA one" 10; row_at "v2" "talk" 5; row_at "v2" "talk" 19;
   row_at "v3" "ama two" 20; row_at "v4" "AMA three" 30; row_at "v4" "AMA three" 31].

(** Two comments, posted at times 10 and 20 on one marker video. *)
Definition two_comments_one_ama : DataFrame :=
  [row_at "v1" "September AMA webinar" 10;
   row_at "v1" "September AMA webinar" 20].

End Grouper.

(* ================================================================== *)
(** * comment-scraper.py *)
(* ================================================================== *)

Module Scraper.
Import Analyzer.
Local Open Scope py_scope.

(** A request of a paged listing of the YouTube client, with what the
    service does with it: [execute()] raises, or gives a response with
    items; [list_next] then gives no further request or the request of
    the next page. *)
Inductive request (I : Type) : Type :=
| Fails (e : string)
| LastPage (items : list I)
| Page (items : list I) (next : request I).
Arguments Fails {I}.
Arguments LastPage {I}.
Arguments Page {I}.

(** An item of [search().list], as far as the script reads it. *)
Record search_item : Type := mk_search_item {
  id_kind : string;
  id_videoId : string;
  snippet_title : string;
  snippet_publishedAt : string
}.

(** An entry of the list [get_channel_videos] returns. *)
Record video : Type := mk_video {
  v_video_id : string;
  v_title : string;
  v_published_at : string
}.

(** The snippet of the top-level comment of an item of
    [commentThreads().list]; [publishedAt] is the instant its text
    denotes (the value [pd.to_datetime] gives it). *)
Record thread_item : Type := mk_thread_item {
  authorDisplayName : string;
  textDisplay : string;
  likeCount : Z;
  publishedAt : Z
}.

(** An entry of the list [get_video_comments] returns. *)
Record comment : Type := mk_comment {
  c_author : string;
  c_text : string;
  c_likes : Z;
  c_published_at : Z
}.

(** The client [setup_youtube_api] builds: the listing of a channel's
    videos, and the listing of a video's comment threads for a page size. *)
Record youtube : Type := mk_youtube {
  search_list : string -> request search_item;
  commentThreads_list : string -> Z -> request thread_item
}.

(** [request.execute()] sends one request. *)
Definition execute : M unit :=
  fun w => (Returned tt, {| stdout := stdout w; requests := S (requests w) |}).

Definition raise {A} (e : string) : M A := fun w => (Raised e, w).

Definition video_of (item : search_item) : video :=
  {| v_video_id := id_videoId item;
     v_title := snippet_title item;
     v_published_at := snippet_publishedAt item |}.

(** [for item in response.get('items', [])] of [get_channel_videos], with
    its [break]. *)
Fixpoint add_videos (max_results : Z) (items : list search_item)
    (videos : list video) : list video :=
  match items with
  | [] => videos
  | item :: rest =>
      if String.eqb (id_kind item) "youtube#video" then
        let videos := videos ++ [video_of item] in
        if Z.of_nat (List.length videos) >=? max_results then videos
        else add_videos max_results rest videos
      else add_videos max_results rest videos
  end.

(** [while request and len(videos) < max_results] of [get_channel_videos];
    a failing [execute()] is not caught. *)
Fixpoint videos_loop (max_results : Z) (request : request search_item)
    (videos : list video) : M (list video) :=
  match request with
  | Fails e =>
      if Z.of_nat (List.length videos) <? max_results
      then execute ;; raise e
      else ret videos
  | LastPage items =>
      if Z.of_nat (List.length videos) <? max_results
      then execute ;; ret (add_videos max_results items videos)
      else ret videos
  | Page items next =>
      if Z.of_nat (List.length videos) <? max_results
      then execute ;; videos_loop max_results next (add_videos max_results items videos)
      else ret videos
  end.

Definition get_channel_videos (youtube : youtube) (channel_id : string)
    (max_results : Z) : M (list video) :=
  videos_loop max_results (search_list youtube channel_id) [].

Definition comment_of (item : thread_item) : comment :=
  {| c_author := authorDisplayName item;
     c_text := textDisplay item;
     c_likes := likeCount item;
     c_published_at := publishedAt item |}.

(** [while request and len(comments) < max_comments] of
    [get_video_comments]: a failing [execute()] is reported and ends the
    loop. *)
Fixpoint comments_loop (video_id : string) (max_comments : Z)
    (request : request thread_item) (comments : list comment)
  : M (list comment) :=
  match request with
  | Fails e =>
      if Z.of_nat (List.length comments) <? max_comments
      then execute ;;
           print ("Error fetching comments for video " ++ video_id ++ ": " ++ e) ;;
           ret comments
      else ret comments
  | LastPage items =>
      if Z.of_nat (List.length comments) <? max_comments
      then execute ;; ret (comments ++ map comment_of items)
      else ret comments
  | Page items next =>
      if Z.of_nat (List.length comments) <? max_comments
      then execute ;;
           comments_loop video_id max_comments next (comments ++ map comment_of items)
      else ret comments
  end.

Definition get_video_comments (youtube : youtube) (video_id : string)
    (max_comments : Z) : M (list comment) :=
  comments_loop video_id max_comments
    (commentThreads_list youtube video_id (Z.min max_comments 100)) [].

(** A comment with the information of its video added: a row of the
    table. *)
Definition with_video (video : video) (comment : comment) : Grouper.comment_row :=
  {| Grouper.author := c_author comment;
     Grouper.text := c_text comment;
     Grouper.likes := c_likes comment;
     Grouper.published_at := c_published_at comment;
     Grouper.video_id := v_video_id video;
     Grouper.video_title := Some (v_title video);
     Grouper.video_url := "https://www.youtube.com/watch?v=" ++ v_video_id video |}.

(** [for i, video in enumerate(videos, 1)] of [scrape_channel_comments],
    from index [i] on; [n_videos] is [len(videos)] of the whole list. *)
Fixpoint scrape_videos (youtube : youtube) (n_videos i : nat)
    (videos : list video) (max_comments_per_video : Z)
    (all_comments : Grouper.DataFrame) : M Grouper.DataFrame :=
  match videos with
  | [] => ret all_comments
  | video :: rest =>
      print ("Processing video " ++ str_of_nat i ++ "/" ++ str_of_nat n_videos
             ++ ": " ++ v_title video) ;;
      video_comments <-
        get_video_comments youtube (v_video_id video) max_comments_per_video ;;
      print ("Collected " ++ str_of_nat (List.length video_comments) ++ " comments") ;;
      scrape_videos youtube n_videos (S i) rest max_comments_per_video
        (all_comments ++ map (with_video video) video_comments)
  end.

Definition scrape_channel_comments (youtube : youtube) (channel_id : string)
    (max_videos max_comments_per_video : Z) : M Grouper.DataFrame :=
  print "Fetching regular videos (excluding Shorts)..." ;;
  videos <- get_channel_videos youtube channel_id max_videos ;;
  print ("Found " ++ str_of_nat (List.length videos) ++ " regular videos") ;;
  scrape_videos youtube (List.length videos) 1 videos max_comments_per_video [].

(** The videos a listing holds before its first failing page, in order,
    and the failure, if there is one. *)
Fixpoint listed_videos (request : request search_item)
  : list video * option string :=
  match request with
  | Fails e => ([], Some e)
  | LastPage items =>
      (map video_of (filter (fun item => String.eqb (id_kind item) "youtube#video")
                            items), None)
  | Page items next =>
      (map video_of (filter (fun item => String.eqb (id_kind item) "youtube#video")
                            items)
       ++ fst (listed_videos next), snd (listed_videos next))
  end.

(** What [get_channel_videos] gives for a listing: the first
    [max_results] videos listed, when the listing holds that many before
    its first failing page; otherwise all its videos, or the failure. *)
Definition expected_videos (max_results : Z) (request : request search_item)
  : outcome (list video) :=
  let n := Z.to_nat max_results in
  let vids := fst (listed_videos request) in
  if (n <=? List.length vids)%nat then Returned (firstn n vids)
  else match snd (listed_videos request) with
       | None => Returned vids
       | Some e => Raised e
       end.

(** The comments a listing holds before its first failing page, in order. *)
Fixpoint listed_comments (request : request thread_item) : list comment :=
  match request with
  | Fails _ => []
  | LastPage items => map comment_of items
  | Page items next => map comment_of items ++ listed_comments next
  end.

(** Every page of the listing holds at most [m] items. *)
Fixpoint pages_at_most (m : nat) {I} (request : request I) : Prop :=
  match request with
  | Fails _ => True
  | LastPage items => (List.length items <= m)%nat
  | Page items next => (List.length items <= m)%nat /\ pages_at_most m next
  end.

(** A channel with three videos on two pages, each with comments. *)
Definition sample_youtube : youtube :=
  {| search_list := fun _ =>
       Page [mk_search_item "youtube#video" "v1" "September AMA webinar" "2024-09-01T10:00:00Z";
             mk_search_item "youtube#video" "v2" "Market update" "2024-09-08T10:00:00Z"]
            (LastPage [mk_search_item "youtube#video" "v3" "October AMA" "2024-10-01T10:00:00Z"]);
     commentThreads_list := fun video_id _ =>
       Page [mk_thread_item "ann" "Fees are too high" 3 10;
             mk_thread_item "bob" "Great session, thanks" 1 20]
            (Fails "quotaExceeded") |}.

(** What scraping two videos of the sample channel, one comment asked for
    per video, returns and leaves behind. *)
Definition sample_scraped : Grouper.DataFrame :=
  match fst (scrape_channel_comments sample_youtube "channel" 2 1 fresh_world) with
  | Returned rows => rows
  | Raised _ => []
  end.

Definition sample_scraped_world : world :=
  snd (scrape_channel_comments sample_youtube "channel" 2 1 fresh_world).

End Scraper.

(* ================================================================== *)
(** * comment-analyzer.py: main *)
(* ================================================================== *)

Module AnalyzerMain.
Import Analyzer.
Local Open Scope py_scope.

(** [d[k] = v] on a dictionary kept in insertion order: an existing key
    keeps its place and gets the new value, a new key goes last. *)
Fixpoint dict_set {V} (d : list (string * V)) (k : string) (v : V)
  : list (string * V) :=
  match d with
  | [] => [(k, v)]
  | (k', v') :: d' =>
      if String.eqb k' k then (k', v) :: d' else (k', v') :: dict_set d' k v
  end.

Section WithService.
(** The analyzer built from the API key.  The key [OPEN_AI_KEY] is a name
    the script leaves to its user; the service it gives access to is a
    parameter here. *)
Variable api : openai.

(** [for period, data in periods.items()]: the analyses so far are in
    [analyses]. *)
Fixpoint analyze_periods (periods : list (string * period_data string))
    (analyses : list (string * period_analysis))
  : M (list (string * period_analysis)) :=
  match periods with
  | [] => ret analyses
  | (period, data) :: rest =>
      print (LF ++ "Analyzing " ++ period) ;;
      result <- analyze_period api data ;;
      analyze_periods rest (dict_set analyses period result)
  end.

(** [for period in analyses]: the summary printed at the end. *)
Fixpoint print_summary (analyses : list (string * period_analysis)) : M unit :=
  match analyses with
  | [] => ret tt
  | (period, result) :: rest =>
      print (LF ++ period) ;;
      print ("Comments analyzed: "
             ++ str_of_nat (pm_comment_count (pa_period_metadata result))) ;;
      print ("Analysis length: " ++ str_of_nat (String.length (analysis result))) ;;
      print_summary rest
  end.

(** [main], from the periods loaded from [grouped_comments.json]; the
    value returned is the document written to [comment_analysis.json]. *)
Definition main (periods : list (string * period_data string))
  : M (list (string * period_analysis)) :=
  analyses <- analyze_periods periods [] ;;
  print (LF ++ "Analysis complete!") ;;
  print_summary analyses ;;
  ret analyses.

End WithService.

(** The metadata [analyze_period] copies from a period. *)
Definition metadata_of (data : period_data string) : period_metadata :=
  {| pm_comment_count := comment_count data;
     pm_video_count := video_count data;
     pm_unique_authors := unique_authors data;
     pm_date_range := date_range data |}.

(** An analysis entry that belongs to a period entry. *)
Definition analysis_of (entry : string * period_data string)
    (result : string * period_analysis) : Prop :=
  fst result = fst entry /\
  pa_period_metadata (snd result) = metadata_of (snd entry).

(** The most requests the analysis of the given periods can send: one per
    comment and two more, for each period. *)
Definition request_budget (periods : list (string * period_data string)) : nat :=
  list_sum (map (fun entry : string * period_data string =>
                   List.length (comments (snd entry)) + 2)%nat periods).

End AnalyzerMain.

(* ================================================================== *)
(** * Further notions used to state properties *)
(* ================================================================== *)

Module Notions.
Import Analyzer Grouper.

(** The rows whose [period] cell is missing: the comments left out of
    every period. *)
Definition unassigned (rows : list labelled_row) : list labelled_row :=
  filter (fun row : labelled_row =>
            match snd row with None => true | Some _ => false end) rows.

(** The sum of [comment_count] over the entries of a [periods] dictionary. *)
Definition total_comment_count {T} (periods : list (string * period_data T)) : nat :=
  list_sum (map (fun entry => comment_count (snd entry)) periods).



(** The rows of a table whose timestamp lies in the interval of a period. *)
Definition rows_in_period (p : period_label) (df : DataFrame) : DataFrame :=
  filter (fun r => in_period p (published_at r)) df.

(** Greedy packing: wherever a batch is followed by another one, the
    following batch has a first record, and that record did not fit in the
    batch before it. *)
Definition greedy (max_tokens : Z) (batches : list (list string)) : Prop :=
  forall pre b b2 post,
    batches = pre ++ b :: b2 :: post ->
    exists c rest, b2 = c :: rest /\ chunk_tokens b + comment_tokens c > max_tokens.

(** The invariant of the loop of [chunk_comments] behind greedy packing,
    on the closed batches followed by the open one. *)
Definition greedy_inv (max_tokens : Z) (st : chunk_state) : Prop :=
  current_length st = chunk_tokens (current_chunk st) /\
  greedy max_tokens (chunks st ++ [current_chunk st]) /\
  (current_chunk st = [] -> chunks st = []).

(** Inputs for examples. *)
Definition four_comments : list string :=
  ["aaaaaaaa"; "bbbb"; "cccccccccccccccc"; "d"].

Definition sample_period : period_data string :=
  {| comments := ["Fees are too high"; "Great session, thanks"];
     video_count := 1;
     comment_count := 2;
     date_range := ("2024-09-01 10:00:00", "2024-09-30 18:30:00");
     unique_authors := 2;
     videos := [{| vr_video_title := Some "September AMA webinar";
                   vr_video_id := "v1";
                   vr_video_url := "https://www.youtube.com/watch?v=v1" |}] |}.

(** A service that answers every summarizing request with the same text. *)
Definition service_echo : openai :=
  {| chat_completions_create := fun _ _ => Returned "Main topics: fees.";
     ChatCompletion_create := fun _ _ => Raised "Connection error." |}.

End Notions.

(* ================================================================== *)
(** * Properties of the batcher *)
(* ================================================================== *)

Module BatcherFacts.
Import Analyzer.

Lemma comment_tokens_nonneg c : 0 <= comment_tokens c.
Proof. unfold comment_tokens. apply Z.div_pos; lia. Qed.

Lemma chunk_tokens_app a b :
  chunk_tokens (a ++ b) = chunk_tokens a + chunk_tokens b.
Proof.
  induction a as [|x a IH]; simpl; [reflexivity|].
  fold (chunk_tokens (a ++ b)) (chunk_tokens a). lia.
Qed.

Lemma chunk_tokens_nonneg b : 0 <= chunk_tokens b.
Proof.
  induction b as [|x b IH]; simpl; [lia|].
  fold (chunk_tokens b). pose proof (comment_tokens_nonneg x). lia.
Qed.

Lemma member_le_chunk_tokens c b :
  In c b -> comment_tokens c <= chunk_tokens b.
Proof.
  induction b as [|x b IH]; simpl; [tauto|].
  fold (chunk_tokens b).
  pose proof (comment_tokens_nonneg x). pose proof (chunk_tokens_nonneg b).
  intros [->|Hin]; [lia|]. specialize (IH Hin). lia.
Qed.

Section Loop.
Variable max_tokens : Z.

Abbreviation run := (fold_left (chunk_step max_tokens)).

(** What the loop has consumed is what it holds: closed batches followed
    by the open one. *)
Lemma run_concat comments st :
  concat (chunks (run comments st)) ++ current_chunk (run comments st)
  = (concat (chunks st) ++ current_chunk st) ++ comments.
Proof.
  revert st. induction comments as [|c comments IH]; intro st; simpl.
  - now rewrite app_nil_r.
  - rewrite IH. unfold chunk_step.
    destruct (current_length st + comment_tokens c >? max_tokens); simpl.
    + rewrite concat_app. simpl. rewrite app_nil_r.
      now rewrite <- !app_assoc.
    + now rewrite <- !app_assoc.
Qed.

Lemma finish_concat st :
  concat (chunk_finish st) = concat (chunks st) ++ current_chunk st.
Proof.
  unfold chunk_finish. destruct (current_chunk st) as [|x l].
  - now rewrite app_nil_r.
  - rewrite concat_app. simpl. now rewrite app_nil_r.
Qed.

Abbreviation size_inv := (size_inv max_tokens).

Lemma size_inv_init : size_inv chunk_init.
Proof.
  constructor; simpl; auto.
  - intros b [].
  - intros c [].
  - intros b [].
Qed.

Lemma size_inv_step st c : size_inv st -> size_inv (chunk_step max_tokens st c).
Proof.
  intros [Hlen Hcur Hclosed Hca Hcla]. unfold chunk_step.
  destruct (current_length st + comment_tokens c >? max_tokens) eqn:E.
  - constructor; simpl.
    + lia.
    + right. destruct (Z_le_gt_dec (comment_tokens c) max_tokens) as [Hle|Hgt].
      * left. simpl. lia.
      * right. exists c. split; [reflexivity|exact Hgt].
    + intros b Hb. apply in_app_or in Hb as [Hb|[<-|[]]]; auto.
    + intros c' [<-|[]] _. reflexivity.
    + intros b Hb. apply in_app_or in Hb as [Hb|[<-|[]]]; auto.
  - rewrite Z.gtb_ltb, Z.ltb_ge in E.
    assert (Hsum : chunk_tokens (current_chunk st ++ [c]) <= max_tokens).
    { rewrite chunk_tokens_app. simpl. lia. }
    constructor; simpl.
    + rewrite chunk_tokens_app. simpl. lia.
    + right. left. exact Hsum.
    + exact Hclosed.
    + intros c' Hin Hgt. apply member_le_chunk_tokens in Hin. lia.
    + exact Hcla.
Qed.

Lemma size_inv_run comments st : size_inv st -> size_inv (run comments st).
Proof.
  revert st. induction comments as [|c comments IH]; intros st H; simpl; auto.
  apply IH, size_inv_step, H.
Qed.

Lemma in_finish st b :
  In b (chunk_finish st) ->
  In b (chunks st) \/ (b = current_chunk st /\ b <> []).
Proof.
  unfold chunk_finish. destruct (current_chunk st) as [|x l]; auto.
  intros H. apply in_app_or in H as [H|[<-|[]]]; auto. right. split; congruence.
Qed.

(** No closed batch is empty once the open batch is non-empty. *)
Lemma run_nonempty comments st :
  current_chunk st <> [] ->
  (forall b, In b (chunks st) -> b <> []) ->
  current_chunk (run comments st) <> [] /\
  forall b, In b (chunks (run comments st)) -> b <> [].
Proof.
  revert st. induction comments as [|c comments IH]; intros st Hc Hcl; simpl; auto.
  apply IH; unfold chunk_step;
    destruct (current_length st + comment_tokens c >? max_tokens); simpl; auto.
  - discriminate.
  - intros E. apply app_eq_nil in E as [_ E]. discriminate.
  - intros b Hb. apply in_app_or in Hb as [Hb|[<-|[]]]; auto.
Qed.
End Loop.

(** Every non-empty batch respects the limit, for any limit. *)
Lemma chunk_nonempty_within_limit comments max_tokens b :
  In b (chunk_comments comments max_tokens) -> b <> [] ->
  within_limit max_tokens b.
Proof.
  unfold chunk_comments. intros Hin Hne.
  pose proof (size_inv_run max_tokens comments _ (size_inv_init max_tokens)) as [_ Hcur Hcl _ _].
  apply in_finish in Hin as [Hin|[-> _]].
  - destruct (Hcl _ Hin); [contradiction|assumption].
  - destruct Hcur; [contradiction|assumption].
Qed.


(** When the first record fits the limit, no batch is empty. *)
Lemma chunk_nonempty_when_first_fits c comments max_tokens b :
  comment_tokens c <= max_tokens ->
  In b (chunk_comments (c :: comments) max_tokens) -> b <> [].
Proof.
  unfold chunk_comments. simpl. intros Hfit Hin.
  assert (E : chunk_step max_tokens chunk_init c
              = {| chunks := []; current_chunk := [c];
                   current_length := 0 + comment_tokens c |}).
  { unfold chunk_step, chunk_init. simpl.
    destruct (comment_tokens c >? max_tokens) eqn:G; [|reflexivity].
    rewrite Z.gtb_ltb, Z.ltb_lt in G. lia. }
  rewrite E in Hin.
  destruct (run_nonempty max_tokens comments
              {| chunks := []; current_chunk := [c];
                 current_length := 0 + comment_tokens c |}) as [_ Hcl].
  - discriminate.
  - intros ? [].
  - apply in_finish in Hin as [Hin|[_ Hne]]; auto.
Qed.

(** When the first record is over the limit, the first batch is empty. *)
Lemma chunk_empty_when_first_oversize c comments max_tokens :
  comment_tokens c > max_tokens ->
  exists rest, chunk_comments (c :: comments) max_tokens = [] :: rest.
Proof.
  intros Hgt. unfold chunk_comments. simpl.
  assert (E : chunk_step max_tokens chunk_init c
              = {| chunks := [[]]; current_chunk := [c];
                   current_length := comment_tokens c |}).
  { unfold chunk_step, chunk_init. simpl.
    destruct (comment_tokens c >? max_tokens) eqn:G; [reflexivity|].
    rewrite Z.gtb_ltb, Z.ltb_ge in G. lia. }
  rewrite E.
  assert (P : forall l st, exists rest,
             chunks (fold_left (chunk_step max_tokens) l st) = chunks st ++ rest).
  { induction l as [|x l IH]; intro st; simpl.
    - exists []. now rewrite app_nil_r.
    - destruct (IH (chunk_step max_tokens st x)) as [rest ->].
      unfold chunk_step.
      destruct (current_length st + comment_tokens x >? max_tokens); simpl.
      + exists ([current_chunk st] ++ rest). now rewrite <- app_assoc.
      + now exists rest. }
  destruct (P comments {| chunks := [[]]; current_chunk := [c];
                          current_length := comment_tokens c |}) as [rest Hrest].
  unfold chunk_finish. rewrite Hrest. simpl.
  destruct (current_chunk _); eauto.
Qed.

(** C1 (the code departs from the claim): a single record over the default
    limit of 3000 tokens yields an empty first batch before the batch that
    holds the record, and so does a four-character record under the limit
    0; the empty input yields no batch. *)
Theorem chunk_comments_leading_empty_batch :
  comment_tokens long_comment = 3001 /\
  chunk_comments [long_comment] default_max_tokens = [[]; [long_comment]] /\
  chunk_comments ["abcd"] 0 = [[]; ["abcd"]] /\
  chunk_comments [] default_max_tokens = [].
Proof. vm_compute. repeat split. Qed.

(** C4: concatenating the batches, in batch order, gives back the input list,
    for every input list and every limit. *)
Theorem chunk_comments_concat (comments : list string) (max_tokens : Z) :
  concat (chunk_comments comments max_tokens) = comments.
Proof.
  unfold chunk_comments. rewrite finish_concat, run_concat. reflexivity.
Qed.




End BatcherFacts.

(* ================================================================== *)
(** * Properties of the summarizer and the merger *)
(* ================================================================== *)

Module SummaryFacts.
Import Analyzer.
Local Open Scope py_scope.

Lemma append_empty (s1 s2 : string) :
  (s1 ++ s2)%string = "" -> s1 = "" /\ s2 = "".
Proof. destruct s1; simpl; [auto|discriminate]. Qed.

(** Joining two or more parts with a non-empty separator is never empty. *)
Lemma join_nonempty (sep x y : string) (l : list string) :
  sep <> "" -> String.concat sep (x :: y :: l) <> "".
Proof.
  intros Hsep H. simpl in H.
  apply append_empty in H as [_ H]. apply append_empty in H as [H _]. auto.
Qed.

Lemma blank_line_nonempty : (LF ++ LF)%string <> "".
Proof. discriminate. Qed.

(** Sequencing after a step that returned. *)
Lemma bind_returned {A B} (m : M A) (k : A -> M B) w a w' :
  m w = (Returned a, w') -> bind m k w = k a w'.
Proof. intros E. unfold bind. rewrite E. reflexivity. Qed.

Section Service.
Variable api : openai.

(** The two ways [analyze_chunk] ends, by the answer of the service. *)
Lemma analyze_chunk_cases chunk w :
  analyze_chunk api chunk w =
  match chat_completions_create api (chunk_request chunk) (requests w) with
  | Returned s => (Returned s, after_request w)
  | Raised e => (Returned "", after_failure "Error analyzing chunk: " e w)
  end.
Proof.
  unfold analyze_chunk, try_except, bind, call, ret, print,
    after_request, after_failure.
  destruct (chat_completions_create api (chunk_request chunk) (requests w));
    reflexivity.
Qed.

Lemma analyze_chunk_returns chunk w :
  exists s w', analyze_chunk api chunk w = (Returned s, w')
               /\ requests w' = S (requests w).
Proof.
  rewrite analyze_chunk_cases.
  destruct (chat_completions_create api (chunk_request chunk) (requests w));
    eauto.
Qed.

(** The loop over the batches attempts every batch and always ends normally. *)
Lemma analyze_chunks_returns n chunks : forall i acc w,
  exists analyses w',
    analyze_chunks api n i chunks acc w = (Returned analyses, w')
    /\ requests w' = (requests w + List.length chunks)%nat.
Proof.
  induction chunks as [|chunk rest IH]; intros i acc w; simpl.
  - exists acc, w. split; [reflexivity|lia].
  - erewrite bind_returned by (unfold print; reflexivity).
    match goal with |- context [bind (analyze_chunk api chunk) _ ?w0] =>
      destruct (analyze_chunk_returns chunk w0) as (s & w1 & E & R)
    end.
    erewrite bind_returned by exact E.
    destruct (IH (S i) (if String.eqb s "" then acc else acc ++ [s]) w1)
      as (analyses & w' & E' & R').
    exists analyses, w'. split; [exact E'|]. rewrite R', R. simpl. lia.
Qed.

(** The three ways [merge_analyses] ends on two partials or more. *)
Lemma merge_analyses_many x y l w :
  merge_analyses api (x :: y :: l) w =
  match ChatCompletion_create api (merge_request (x :: y :: l)) (requests w) with
  | Returned s => (Returned s, after_request w)
  | Raised e =>
      (Returned (String.concat (LF ++ LF) (x :: y :: l)),
       after_failure "Error merging analyses: " e w)
  end.
Proof.
  unfold merge_analyses.
  change (List.length (x :: y :: l) =? 1)%nat with false.
  unfold try_except, bind, call, ret, print, after_request, after_failure.
  destruct (ChatCompletion_create api (merge_request (x :: y :: l)) (requests w));
    reflexivity.
Qed.

Lemma merge_analyses_one x w : merge_analyses api [x] w = (Returned x, w).
Proof. reflexivity. Qed.

Lemma merge_analyses_none w :
  merge_analyses api [] w = (Returned "No analysis available.", w).
Proof. reflexivity. Qed.

Lemma merge_analyses_returns analyses w :
  exists s w', merge_analyses api analyses w = (Returned s, w').
Proof.
  destruct analyses as [|x [|y l]].
  - rewrite merge_analyses_none. eauto.
  - rewrite merge_analyses_one. eauto.
  - rewrite merge_analyses_many.
    destruct (ChatCompletion_create api _ _); eauto.
Qed.

Lemma analyze_period_returns period_data w :
  exists r w', analyze_period api period_data w = (Returned r, w').
Proof.
  unfold analyze_period.
  set (chunks := chunk_comments (comments period_data) default_max_tokens).
  destruct (analyze_chunks_returns (List.length chunks) chunks 1%nat [] w)
    as (analyses & w1 & E & _).
  destruct (merge_analyses_returns analyses w1) as (s & w2 & E2).
  erewrite bind_returned by exact E.
  erewrite bind_returned by exact E2.
  unfold ret. eauto.
Qed.

End Service.

(** C9: for every service and every batch, [analyze_chunk] returns and never
    raises; when the request fails it reports the failure on the console
    and returns the empty string; the loop of [analyze_period] goes on to
    every batch whatever failed before, and [analyze_period] returns. *)
Theorem analyze_chunk_never_raises (api : openai) (chunk : list string) (w : world) :
  (exists s w', analyze_chunk api chunk w = (Returned s, w')) /\
  (forall e,
     chat_completions_create api (chunk_request chunk) (requests w) = Raised e ->
     analyze_chunk api chunk w
     = (Returned "", after_failure "Error analyzing chunk: " e w)) /\
  (forall n i chunks acc,
     exists analyses w',
       analyze_chunks api n i chunks acc w = (Returned analyses, w')
       /\ requests w' = (requests w + List.length chunks)%nat) /\
  (forall period_data,
     exists r w', analyze_period api period_data w = (Returned r, w')).
Proof.
  repeat split.
  - destruct (analyze_chunk_returns api chunk w) as (s & w' & E & _). eauto.
  - intros e He. rewrite analyze_chunk_cases, He. reflexivity.
  - intros. apply analyze_chunks_returns.
  - intros. apply analyze_period_returns.
Qed.

(** C7, as the claim states it, fails when the consolidation request
    succeeds with empty content: two non-empty partials merge to the empty
    string. *)
Lemma merge_analyses_empty_consolidation :
  In "a" ["a"; "b"] /\ "a" <> "" /\
  merge_analyses service_silent ["a"; "b"] fresh_world
  = (Returned "", after_request fresh_world).
Proof.
  split; [left; reflexivity|]. split; [discriminate|reflexivity].
Qed.

(** C7 (amended): [merge_analyses] always returns; on the empty list it
    returns the placeholder; when the consolidation request fails it
    returns all partials joined by blank lines, which is not empty; and on
    a list with a non-empty partial it returns the empty string only when
    the consolidation request itself succeeded with empty content. *)
Theorem merge_analyses_total_with_fallback
    (api : openai) (analyses : list string) (w : world) :
  merge_analyses api [] w = (Returned "No analysis available.", w) /\
  (exists s w', merge_analyses api analyses w = (Returned s, w')) /\
  (forall e,
     (2 <= List.length analyses)%nat ->
     ChatCompletion_create api (merge_request analyses) (requests w) = Raised e ->
     merge_analyses api analyses w
     = (Returned (String.concat (LF ++ LF) analyses),
        after_failure "Error merging analyses: " e w)
     /\ String.concat (LF ++ LF) analyses <> "") /\
  ((exists x, In x analyses /\ x <> "") ->
   fst (merge_analyses api analyses w) = Returned "" ->
   (2 <= List.length analyses)%nat /\
   ChatCompletion_create api (merge_request analyses) (requests w) = Returned "").
Proof.
  split; [reflexivity|]. split; [apply merge_analyses_returns|]. split.
  - intros e Hlen He. destruct analyses as [|x [|y l]]; simpl in Hlen; try lia.
    rewrite merge_analyses_many, He. split; [reflexivity|].
    apply join_nonempty, blank_line_nonempty.
  - intros (x & Hin & Hx) Hres. destruct analyses as [|a [|b l]].
    + destruct Hin.
    + destruct Hin as [->|[]]. rewrite merge_analyses_one in Hres.
      simpl in Hres. congruence.
    + split; [simpl; lia|]. rewrite merge_analyses_many in Hres.
      destruct (ChatCompletion_create api _ _) as [s|e]; cbn [fst] in Hres.
      * congruence.
      * exfalso. apply (join_nonempty (LF ++ LF) a b l blank_line_nonempty).
        congruence.
Qed.



End SummaryFacts.

(* ================================================================== *)
(** * Properties of the period segmenter *)
(* ================================================================== *)

Module GrouperFacts.
Import Grouper.

(** ** Sorting and distinct values *)

Section Sorting.
Context {A : Type} (key : A -> Z).

Lemma insert_sorted_perm x l : Permutation (insert_sorted key x l) (x :: l).
Proof.
  induction l as [|y l IH]; simpl; [reflexivity|].
  destruct (key x <=? key y); [reflexivity|].
  rewrite IH. apply perm_swap.
Qed.

Lemma sort_values_perm l : Permutation (sort_values key l) l.
Proof.
  induction l as [|x l IH]; simpl; [constructor|].
  fold (sort_values key l). rewrite insert_sorted_perm. now constructor.
Qed.


End Sorting.

Lemma existsb_eqb_In x seen : existsb (Z.eqb x) seen = true <-> In x seen.
Proof.
  rewrite existsb_exists. split.
  - intros (y & Hy & E). apply Z.eqb_eq in E. now subst.
  - intros H. exists x. split; [exact H|apply Z.eqb_refl].
Qed.

Lemma unique_from_In seen l x :
  In x (unique_from Z.eqb seen l) <-> In x l /\ ~ In x seen.
Proof.
  revert seen. induction l as [|y l IH]; intro seen; simpl; [tauto|].
  destruct (existsb (Z.eqb y) seen) eqn:E.
  - apply existsb_eqb_In in E. rewrite IH. split.
    + tauto.
    + intros [[->|H] Hn]; tauto.
  - assert (Hy : ~ In y seen).
    { intros H. apply existsb_eqb_In in H. congruence. }
    simpl. rewrite IH. simpl. split.
    + intros [->|[H Hn]]; [tauto|]. tauto.
    + intros [[->|H] Hn]; [tauto|].
      destruct (Z.eq_dec y x); [tauto|]. right. tauto.
Qed.

Lemma unique_from_NoDup seen l : NoDup (unique_from Z.eqb seen l).
Proof.
  revert seen. induction l as [|y l IH]; intro seen; simpl; [constructor|].
  destruct (existsb (Z.eqb y) seen); [apply IH|].
  constructor; [|apply IH].
  rewrite unique_from_In. simpl. tauto.
Qed.


(** ** find_ama_dates *)

Lemma find_ama_dates_In df t :
  In t (find_ama_dates df) <-> exists r, In r df /\ is_ama r = true /\ published_at r = t.
Proof.
  unfold find_ama_dates, unique. rewrite unique_from_In.
  split.
  - intros [H _]. apply in_map_iff in H as (r & <- & Hr).
    apply (Permutation_in _ (sort_values_perm published_at _)) in Hr.
    apply filter_In in Hr as [Hr Ha]. eauto.
  - intros (r & Hr & Ha & <-). split; [|intros []].
    apply in_map.
    apply (Permutation_in _ (Permutation_sym (sort_values_perm published_at _))).
    apply filter_In. auto.
Qed.


Lemma find_ama_dates_NoDup df : NoDup (find_ama_dates df).
Proof. apply unique_from_NoDup. Qed.

Lemma find_ama_dates_length df :
  List.length (find_ama_dates df) = distinct_marker_timestamps df.
Proof.
  unfold distinct_marker_timestamps. apply Permutation_length.
  apply NoDup_Permutation.
  - apply find_ama_dates_NoDup.
  - apply NoDup_nodup.
  - intros t. rewrite find_ama_dates_In, nodup_In, in_map_iff.
    split.
    + intros (r & Hr & Ha & E). exists r. split; [exact E|].
      apply filter_In. auto.
    + intros (r & E & Hr). apply filter_In in Hr as [Hr Ha]. eauto.
Qed.

(** C2 (the code departs from the claim): two comments posted at times 10
    and 20 on one marker video give two marker timestamps, not the single
    earliest one, and the run goes on with one marker video only. *)
Theorem find_ama_dates_per_comment :
  distinct_marker_videos two_comments_one_ama = 1%nat /\
  find_ama_dates two_comments_one_ama = [10; 20] /\
  written (main digits_strftime two_comments_one_ama) <> None.
Proof. vm_compute. repeat split. discriminate. Qed.

(** ** Period boundaries *)

Lemma ascending_nth_lt l :
  StronglySorted Z.lt l ->
  forall i j, (i < j < List.length l)%nat -> nth i l 0 < nth j l 0.
Proof.
  induction 1 as [|a l Hs IH Ha]; intros i j Hij; simpl in Hij; [lia|].
  destruct j as [|j]; [lia|]. destruct i as [|i]; simpl.
  - rewrite Forall_forall in Ha. apply Ha, nth_In. lia.
  - apply IH. lia.
Qed.

Lemma ascending_nth_le l :
  StronglySorted Z.lt l ->
  forall i j, (i <= j < List.length l)%nat -> nth i l 0 <= nth j l 0.
Proof.
  intros Hs i j Hij. destruct (Nat.eq_dec i j) as [->|Hne]; [lia|].
  apply Z.lt_le_incl, ascending_nth_lt; [exact Hs|lia].
Qed.

Lemma period_cell_none periods t cell :
  (forall p, In p periods -> in_period p t = false) ->
  period_cell periods t cell = cell.
Proof.
  revert cell. induction periods as [|q periods IH]; intros cell H; simpl; auto.
  rewrite (H q (or_introl eq_refl)). apply IH. intros p Hp. apply H. now right.
Qed.

Lemma period_cell_some periods t cell lbl :
  (forall q, In q periods -> in_period q t = true -> label q = lbl) ->
  (exists p, In p periods /\ in_period p t = true) ->
  period_cell periods t cell = Some lbl.
Proof.
  revert cell. induction periods as [|q periods IH]; intros cell Hall (p & Hp & Ht).
  - destruct Hp.
  - simpl. destruct (in_period q t) eqn:E.
    + rewrite (Hall q (or_introl eq_refl) E).
      destruct (existsb (fun p => in_period p t) periods) eqn:Ex.
      * apply IH.
        -- intros q' Hq' Hq't. apply Hall; [right; exact Hq'|exact Hq't].
        -- apply existsb_exists in Ex as (x & Hx & Hxt). eauto.
      * apply period_cell_none. intros x Hx.
        destruct (in_period x t) eqn:Hxt; [|reflexivity].
        assert (existsb (fun p => in_period p t) periods = true)
          by (apply existsb_exists; eauto). congruence.
    + destruct Hp as [->|Hp]; [congruence|].
      apply IH; [|eauto].
      intros q' Hq' Hq't. apply Hall; [right; exact Hq'|exact Hq't].
Qed.

Lemma period_cell_origin periods t cell :
  period_cell periods t cell = cell \/
  exists p, In p periods /\ in_period p t = true
            /\ period_cell periods t cell = Some (label p).
Proof.
  revert cell. induction periods as [|q periods IH]; intro cell; simpl; auto.
  destruct (in_period q t) eqn:E.
  - destruct (IH (Some (label q))) as [H|(p & Hp & Ht & H)].
    + right. exists q. auto.
    + right. exists p. auto.
  - destruct (IH cell) as [H|(p & Hp & Ht & H)]; auto.
    right. exists p. auto.
Qed.

Lemma in_period_iff p t : in_period p t = true <-> p_start p <= t < p_end p.
Proof. unfold in_period. rewrite andb_true_iff, Z.leb_le, Z.ltb_lt. tauto. Qed.

Section Calendar.
Variable strftime : Z -> string -> string.

Lemma in_period_labels ama_dates p :
  In p (period_labels strftime ama_dates) <->
  exists i, (i + 1 < List.length ama_dates)%nat /\
            p = make_label strftime i (nth i ama_dates 0) (nth (i + 1) ama_dates 0).
Proof.
  unfold period_labels. rewrite in_map_iff. split.
  - intros (i & <- & Hi). apply in_seq in Hi. exists i. split; [lia|reflexivity].
  - intros (i & Hi & ->). exists i. split; [reflexivity|]. apply in_seq. lia.
Qed.

Lemma period_labels_length ama_dates :
  List.length (period_labels strftime ama_dates) = (List.length ama_dates - 1)%nat.
Proof. unfold period_labels. now rewrite length_map, length_seq. Qed.


(** Periods cut from ascending dates are disjoint. *)
Lemma period_labels_disjoint ama_dates p q t :
  StronglySorted Z.lt ama_dates ->
  In p (period_labels strftime ama_dates) ->
  In q (period_labels strftime ama_dates) ->
  p_start p <= t < p_end p -> p_start q <= t < p_end q -> q = p.
Proof.
  intros Hs Hp Hq Htp Htq.
  apply in_period_labels in Hp as (i & Hi & ->).
  apply in_period_labels in Hq as (j & Hj & ->).
  simpl in Htp, Htq.
  destruct (Nat.lt_trichotomy i j) as [Hlt|[->|Hlt]]; [|reflexivity|].
  - pose proof (ascending_nth_le _ Hs (i + 1)%nat j). lia.
  - pose proof (ascending_nth_le _ Hs (j + 1)%nat i). lia.
Qed.

(** Row by row, [assign_periods] is [period_cell] at the row's timestamp. *)
Lemma assign_fold periods rows :
  fold_left assign_one periods rows
  = map (fun row : labelled_row =>
           (fst row, period_cell periods (published_at (fst row)) (snd row)))
        rows.
Proof.
  revert rows. induction periods as [|p periods IH]; intro rows; simpl.
  - rewrite <- (map_id rows) at 1. apply map_ext. now intros [r c].
  - rewrite IH. unfold assign_one. rewrite map_map. apply map_ext.
    intros [r c]. simpl. destruct (in_period p (published_at r)); reflexivity.
Qed.

Lemma assign_periods_rows df ama_dates :
  assign_periods strftime df ama_dates
  = map (fun r => (r, period_cell (period_labels strftime ama_dates)
                                  (published_at r) None)) df.
Proof. unfold assign_periods. rewrite assign_fold, map_map. reflexivity. Qed.

Lemma period_labels_hd ama_dates d p :
  In p (period_labels strftime ama_dates) ->
  StronglySorted Z.lt ama_dates ->
  p_start (hd d (period_labels strftime ama_dates)) <= p_start p.
Proof.
  intros Hp Hs. apply in_period_labels in Hp as (i & Hi & ->).
  unfold period_labels.
  destruct (List.length ama_dates - 1)%nat as [|m] eqn:E; [lia|].
  simpl. apply ascending_nth_le; [exact Hs|lia].
Qed.

Lemma period_labels_last ama_dates d p :
  In p (period_labels strftime ama_dates) ->
  StronglySorted Z.lt ama_dates ->
  p_end p <= p_end (last (period_labels strftime ama_dates) d).
Proof.
  intros Hp Hs. apply in_period_labels in Hp as (i & Hi & ->).
  unfold period_labels.
  destruct (List.length ama_dates - 1)%nat as [|m] eqn:E; [lia|].
  rewrite seq_S, map_app. simpl. rewrite last_last. simpl.
  apply ascending_nth_le; [exact Hs|lia].
Qed.

End Calendar.

(** C3: with boundaries cut from strictly ascending marker timestamps,
    [assign_periods] keeps every row and gives it at most one period: the
    label of the one boundary with [start <= timestamp < end], which is
    unique; a labelled row lies in the interval of its label; a row in no
    interval, in particular one before the first start or at or after the
    last end, gets none. *)
Theorem assign_periods_unique_interval
    (strftime : Z -> string -> string) (ama_dates : list Z) (df : DataFrame) :
  StronglySorted Z.lt ama_dates ->
  map fst (assign_periods strftime df ama_dates) = df /\
  forall row, In row (assign_periods strftime df ama_dates) ->
    let t := published_at (fst row) in
    let periods := period_labels strftime ama_dates in
    (forall p, In p periods -> p_start p <= t < p_end p ->
       snd row = Some (label p) /\
       forall q, In q periods -> p_start q <= t < p_end q -> q = p) /\
    (forall lbl, snd row = Some lbl ->
       exists p, In p periods /\ lbl = label p /\ p_start p <= t < p_end p) /\
    ((forall p, In p periods -> ~ (p_start p <= t < p_end p)) -> snd row = None) /\
    (forall d, t < p_start (hd d periods) \/ p_end (last periods d) <= t ->
       snd row = None).
Proof.
  intros Hs. rewrite assign_periods_rows. split.
  - rewrite map_map. simpl. apply map_id.
  - intros row Hrow.
    apply in_map_iff in Hrow as (r & <- & Hr). cbv zeta. cbn [fst snd].
    set (t := published_at r). set (periods := period_labels strftime ama_dates).
    assert (Hnone : (forall p, In p periods -> ~ (p_start p <= t < p_end p)) ->
                    period_cell periods t None = None).
    { intros H. apply period_cell_none. intros p Hp.
      destruct (in_period p t) eqn:E; [|reflexivity].
      apply in_period_iff in E. destruct (H p Hp E). }
    split; [|split; [|split]].
    + intros p Hp Ht. split.
      * apply period_cell_some.
        -- intros q Hq Hqt. apply in_period_iff in Hqt.
           now rewrite (period_labels_disjoint strftime ama_dates p q t).
        -- exists p. split; [exact Hp|]. now apply in_period_iff.
      * intros q Hq Hqt.
        now apply (period_labels_disjoint strftime ama_dates p q t).
    + intros lbl Hl.
      destruct (period_cell_origin periods t None) as [H|(p & Hp & Ht & H)].
      * congruence.
      * exists p. split; [exact Hp|]. split; [congruence|].
        now apply in_period_iff.
    + exact Hnone.
    + intros d Hout. apply Hnone. intros p Hp Ht.
      pose proof (period_labels_hd strftime ama_dates d p Hp Hs).
      pose proof (period_labels_last strftime ama_dates d p Hp Hs).
      fold periods in H, H0. lia.
Qed.

Lemma assign_periods_unique_interval_witness :
  StronglySorted Z.lt three_dates /\
  map fst (assign_periods digits_strftime sample_table three_dates) = sample_table.
Proof.
  assert (Hs : StronglySorted Z.lt three_dates).
  { unfold three_dates. repeat constructor. }
  split; [exact Hs|].
  exact (proj1 (assign_periods_unique_interval digits_strftime three_dates
                  sample_table Hs)).
Defined.





End GrouperFacts.

(* ================================================================== *)
(** * More on the batcher *)
(* ================================================================== *)

Module BatcherMore.
Import Analyzer Notions BatcherFacts.

(** A list that ends with [x], split around two adjacent elements. *)
Lemma snoc_split {A} (l pre post : list A) (x b b2 : A) :
  l ++ [x] = pre ++ b :: b2 :: post ->
  (post = [] /\ b2 = x /\ l = pre ++ [b]) \/
  (exists post', post = post' ++ [x] /\ l = pre ++ b :: b2 :: post').
Proof.
  intros E. destruct post as [|y post' _] using rev_ind.
  - left. split; [reflexivity|].
    change (pre ++ [b; b2]) with (pre ++ [b] ++ [b2]) in E.
    rewrite app_assoc in E. apply app_inj_tail in E as [-> ->]. auto.
  - right. exists post'.
    change (pre ++ b :: b2 :: post' ++ [y])
      with (pre ++ (b :: b2 :: post') ++ [y]) in E.
    rewrite app_assoc in E. apply app_inj_tail in E as [-> ->]. auto.
Qed.

(** Every record of a batch is a record of the input. *)
Lemma chunk_member_of_input comments max_tokens b c :
  In b (chunk_comments comments max_tokens) -> In c b -> In c comments.
Proof.
  intros Hb Hc.
  assert (E : concat (chunk_comments comments max_tokens) = comments).
  { unfold chunk_comments. rewrite finish_concat, run_concat. reflexivity. }
  rewrite <- E. apply in_concat. eauto.
Qed.

Section Greedy.
Variable max_tokens : Z.

Abbreviation greedy_inv := (greedy_inv max_tokens).

Lemma greedy_inv_init : greedy_inv chunk_init.
Proof.
  split; [reflexivity|]. split; [|reflexivity].
  intros pre b b2 post E. simpl in E.
  destruct pre as [|? [|? ?]]; discriminate.
Qed.

Lemma greedy_inv_step st c :
  greedy_inv st -> greedy_inv (chunk_step max_tokens st c).
Proof.
  intros (Hlen & Hg & Hnil). unfold chunk_step.
  destruct (current_length st + comment_tokens c >? max_tokens) eqn:E.
  - rewrite Z.gtb_ltb, Z.ltb_lt in E.
    split; [simpl; lia|]. split; [|discriminate].
    cbn [chunks current_chunk]. intros pre b b2 post Hsplit.
    apply snoc_split in Hsplit as [(-> & -> & Hl)|(post' & -> & Hl)].
    + apply app_inj_tail in Hl as [_ <-].
      exists c, []. split; [reflexivity|lia].
    + apply (Hg pre b b2 post'). exact Hl.
  - split; [simpl; rewrite chunk_tokens_app; simpl; lia|].
    split.
    + cbn [chunks current_chunk]. intros pre b b2 post Hsplit.
      apply snoc_split in Hsplit as [(-> & -> & Hl)|(post' & -> & Hl)].
      * destruct (Hg pre b (current_chunk st) []) as (c0 & rest & Hc & Hgt).
        { rewrite Hl, <- app_assoc. reflexivity. }
        exists c0, (rest ++ [c]). rewrite Hc. split; [reflexivity|exact Hgt].
      * apply (Hg pre b b2 (post' ++ [current_chunk st])).
        rewrite Hl, <- app_assoc. reflexivity.
    + cbn [chunks current_chunk]. intros H.
      apply app_eq_nil in H as [_ H]. discriminate.
Qed.

Lemma greedy_inv_run comments st :
  greedy_inv st -> greedy_inv (fold_left (chunk_step max_tokens) comments st).
Proof.
  revert st. induction comments as [|c comments IH]; intros st H; simpl; auto.
  apply IH, greedy_inv_step, H.
Qed.

Lemma greedy_finish st : greedy_inv st -> greedy max_tokens (chunk_finish st).
Proof.
  intros (_ & Hg & Hnil). unfold chunk_finish.
  destruct (current_chunk st) as [|x l] eqn:E; [|exact Hg].
  rewrite (Hnil eq_refl). intros pre b b2 post H.
  destruct pre; discriminate.
Qed.

Lemma chunk_comments_is_greedy comments :
  greedy max_tokens (chunk_comments comments max_tokens).
Proof. apply greedy_finish, greedy_inv_run, greedy_inv_init. Qed.

End Greedy.

(** An element of the tail of a list has a neighbour before it. *)
Lemma in_tl_split {A} (l : list A) (x : A) :
  In x (tl l) -> exists pre y post, l = pre ++ y :: x :: post.
Proof.
  destruct l as [|y l]; simpl; [tauto|].
  revert y. induction l as [|z l IH]; intros y; simpl; [tauto|].
  intros [->|H].
  - exists [], y, l. reflexivity.
  - destruct (IH z H) as (pre & y' & post & E).
    exists (y :: pre), y', post. simpl. now rewrite E.
Qed.

(** Every batch but the first is non-empty, for any limit. *)
Lemma chunk_tail_nonempty comments max_tokens b :
  In b (tl (chunk_comments comments max_tokens)) -> b <> [].
Proof.
  intros H. apply in_tl_split in H as (pre & y & post & E).
  destruct (chunk_comments_is_greedy max_tokens comments pre y b post E)
    as (c & rest & -> & _).
  discriminate.
Qed.

Lemma length_le_concat {A} (l : list (list A)) :
  (forall b, In b l -> b <> []) -> (List.length l <= List.length (concat l))%nat.
Proof.
  induction l as [|b l IH]; intros H; simpl; [lia|].
  rewrite length_app.
  assert (b <> []) by (apply H; now left).
  assert (List.length l <= List.length (concat l))%nat
    by (apply IH; intros; apply H; now right).
  destruct b; [congruence|]. simpl. lia.
Qed.

(** At most one batch more than there are records. *)
Lemma chunk_count_bound comments max_tokens :
  (List.length (chunk_comments comments max_tokens) <= List.length comments + 1)%nat.
Proof.
  assert (E : concat (chunk_comments comments max_tokens) = comments).
  { unfold chunk_comments. rewrite finish_concat, run_concat. reflexivity. }
  pose proof (chunk_tail_nonempty comments max_tokens) as Ht.
  destruct (chunk_comments comments max_tokens) as [|b l]; simpl in *; [lia|].
  apply length_le_concat in Ht. rewrite <- E, length_app. lia.
Qed.

(** A run of records that fits the limit as a whole stays in the open batch. *)
Lemma run_fits max_tokens l : forall cur,
  chunk_tokens (cur ++ l) <= max_tokens ->
  fold_left (chunk_step max_tokens) l
    {| chunks := []; current_chunk := cur; current_length := chunk_tokens cur |}
  = {| chunks := []; current_chunk := cur ++ l;
       current_length := chunk_tokens (cur ++ l) |}.
Proof.
  induction l as [|c l IH]; intros cur H; simpl.
  - now rewrite app_nil_r.
  - unfold chunk_step at 2. cbn [current_length current_chunk chunks].
    assert (Hc : chunk_tokens cur + comment_tokens c <= max_tokens).
    { rewrite chunk_tokens_app in H. simpl in H.
      fold (chunk_tokens l) in H. pose proof (chunk_tokens_nonneg l). lia. }
    destruct (chunk_tokens cur + comment_tokens c >? max_tokens) eqn:E.
    { rewrite Z.gtb_ltb, Z.ltb_lt in E. lia. }
    replace (chunk_tokens cur + comment_tokens c)
      with (chunk_tokens (cur ++ [c]))
      by (rewrite chunk_tokens_app; simpl; lia).
    rewrite IH; rewrite <- app_assoc; [reflexivity|exact H].
Qed.

(** X1. Greedy packing: in the result of [chunk_comments], for every input
    and every limit, a batch that follows another one starts with a record
    that did not fit in the batch before it. *)
Theorem chunk_comments_greedy (comments : list string) (max_tokens : Z) :
  greedy max_tokens (chunk_comments comments max_tokens).
Proof. apply chunk_comments_is_greedy. Qed.

(** X2. An empty batch appears exactly when the first record alone is over
    the limit, and then only as the first batch: every later batch is
    non-empty. *)
Theorem chunk_comments_empty_batch_iff
    (c : string) (comments : list string) (max_tokens : Z) :
  (In [] (chunk_comments (c :: comments) max_tokens)
   <-> comment_tokens c > max_tokens) /\
  (forall b, In b (tl (chunk_comments (c :: comments) max_tokens)) -> b <> []).
Proof.
  split; [|intros b; apply chunk_tail_nonempty]. split.
  - intros Hin. destruct (Z_le_gt_dec (comment_tokens c) max_tokens) as [Hle|Hgt].
    + exfalso.
      now apply (chunk_nonempty_when_first_fits c comments max_tokens [] Hle Hin).
    + exact Hgt.
  - intros Hgt.
    destruct (chunk_empty_when_first_oversize c comments max_tokens Hgt)
      as [rest ->].
    now left.
Qed.

(** X3. When every record fits the limit on its own, no batch is empty and
    every batch has aggregate estimated size at most the limit. *)
Theorem chunk_comments_all_fit (comments : list string) (max_tokens : Z) :
  (forall c, In c comments -> comment_tokens c <= max_tokens) ->
  forall b, In b (chunk_comments comments max_tokens) ->
    b <> [] /\ chunk_tokens b <= max_tokens.
Proof.
  intros Hfit b Hb.
  assert (Hne : b <> []).
  { destruct comments as [|c0 comments]; [destruct Hb|].
    apply (chunk_nonempty_when_first_fits c0 comments max_tokens); auto.
    apply Hfit. now left. }
  split; [exact Hne|].
  destruct (chunk_nonempty_within_limit comments max_tokens b Hb Hne)
    as [Hle|(c & -> & Hgt)]; [exact Hle|].
  assert (comment_tokens c <= max_tokens).
  { apply Hfit. apply (chunk_member_of_input comments max_tokens [c]); auto.
    now left. }
  lia.
Qed.

Lemma chunk_comments_all_fit_witness :
  (forall c, In c four_comments -> comment_tokens c <= 4) /\
  (forall b, In b (chunk_comments four_comments 4) ->
     b <> [] /\ chunk_tokens b <= 4).
Proof.
  assert (H : forall c, In c four_comments -> comment_tokens c <= 4).
  { intros c Hc. unfold four_comments in Hc. simpl in Hc.
    destruct Hc as [<-|[<-|[<-|[<-|[]]]]]; vm_compute; discriminate. }
  split; [exact H|].
  exact (chunk_comments_all_fit four_comments 4 H).
Defined.

(** X4. A non-empty input whose aggregate estimated size is within the
    limit comes back as one batch: the input itself. *)
Theorem chunk_comments_single_batch (comments : list string) (max_tokens : Z) :
  comments <> [] ->
  chunk_tokens comments <= max_tokens ->
  chunk_comments comments max_tokens = [comments].
Proof.
  intros Hne Hfit. unfold chunk_comments, chunk_init.
  change 0 with (chunk_tokens []).
  rewrite (run_fits max_tokens comments []); [|exact Hfit].
  unfold chunk_finish. simpl. destruct comments; [congruence|reflexivity].
Qed.

Lemma chunk_comments_single_batch_witness :
  chunk_comments four_comments 7 = [four_comments].
Proof.
  apply chunk_comments_single_batch.
  - discriminate.
  - vm_compute. discriminate.
Defined.

End BatcherMore.

(* ================================================================== *)
(** * More on the summarizer, the merger and analyze_period *)
(* ================================================================== *)

Module SummaryMore.
Import Analyzer Notions BatcherFacts BatcherMore SummaryFacts.
Local Open Scope py_scope.

Section Service.
Variable api : openai.

(** What one pass of the loop over the batches does to the world and to
    the analyses kept. *)
Lemma analyze_chunks_effects n chunks : forall i acc w,
  exists analyses w' lines,
    analyze_chunks api n i chunks acc w = (Returned analyses, w')
    /\ requests w' = (requests w + List.length chunks)%nat
    /\ stdout w' = stdout w ++ lines
    /\ ((forall x, In x acc -> x <> "") -> forall x, In x analyses -> x <> "")
    /\ (List.length analyses <= List.length acc + List.length chunks)%nat.
Proof.
  induction chunks as [|chunk rest IH]; intros i acc w; simpl.
  - exists acc, w, []. rewrite app_nil_r. repeat split; auto. lia.
  - erewrite bind_returned by (unfold print; reflexivity).
    match goal with |- context [bind (analyze_chunk api chunk) _ ?w0] =>
      pose proof (analyze_chunk_cases api chunk w0) as C
    end.
    cbn [requests] in C.
    destruct (chat_completions_create api (chunk_request chunk) (requests w))
      as [s|e]; erewrite bind_returned by exact C.
    + match goal with |- context [analyze_chunks _ _ _ _ ?acc' ?w1] =>
        destruct (IH (S i) acc' w1) as (an & w' & lines & E & R & O & N & L)
      end.
      exists an, w'. eexists. split; [exact E|].
      split; [rewrite R; simpl; lia|].
      split; [rewrite O; simpl; rewrite <- app_assoc; reflexivity|].
      split.
      * intros Hacc. apply N. destruct (String.eqb_spec s ""); [exact Hacc|].
        intros x Hx. apply in_app_or in Hx as [Hx|[<-|[]]]; auto.
      * destruct (String.eqb s ""); [lia|]. rewrite length_app in L. simpl in L. lia.
    + match goal with |- context [analyze_chunks _ _ _ _ ?acc' ?w1] =>
        destruct (IH (S i) acc' w1) as (an & w' & lines & E & R & O & N & L)
      end.
      exists an, w'. eexists. split; [exact E|].
      split; [rewrite R; simpl; lia|].
      split; [rewrite O; simpl; rewrite <- !app_assoc; reflexivity|].
      split; [exact N|]. simpl in L. lia.
Qed.

(** When every request to the summarizing entry point fails, the loop
    keeps no analysis. *)
Lemma analyze_chunks_all_fail n chunks :
  (forall r k, exists e, chat_completions_create api r k = Raised e) ->
  forall i acc w,
  exists w',
    analyze_chunks api n i chunks acc w = (Returned acc, w')
    /\ requests w' = (requests w + List.length chunks)%nat.
Proof.
  intros Hfail. induction chunks as [|chunk rest IH]; intros i acc w; simpl.
  - exists w. split; [reflexivity|lia].
  - erewrite bind_returned by (unfold print; reflexivity).
    match goal with |- context [bind (analyze_chunk api chunk) _ ?w0] =>
      pose proof (analyze_chunk_cases api chunk w0) as C
    end.
    cbn [requests] in C.
    destruct (Hfail (chunk_request chunk) (requests w)) as [e He].
    rewrite He in C. erewrite bind_returned by exact C.
    change (String.eqb "" "") with true. cbv iota.
    match goal with |- context [analyze_chunks _ _ _ _ _ ?w1] =>
      destruct (IH (S i) acc w1) as (w' & E & R)
    end.
    exists w'. split; [exact E|]. rewrite R. simpl. lia.
Qed.

(** What [merge_analyses] does to the world, and when its result is empty. *)
Lemma merge_analyses_effects analyses w :
  exists s w' lines,
    merge_analyses api analyses w = (Returned s, w')
    /\ (requests w <= requests w' <= S (requests w))%nat
    /\ stdout w' = stdout w ++ lines
    /\ ((forall x, In x analyses -> x <> "") -> s = "" ->
        exists r k, ChatCompletion_create api r k = Returned "").
Proof.
  destruct analyses as [|x [|y l]].
  - rewrite merge_analyses_none. exists "No analysis available.", w, [].
    rewrite app_nil_r. repeat split; try lia. discriminate.
  - rewrite merge_analyses_one. exists x, w, []. rewrite app_nil_r.
    repeat split; try lia. intros H ->. destruct (H "" (or_introl eq_refl) eq_refl).
  - rewrite merge_analyses_many.
    destruct (ChatCompletion_create api _ _) as [s|e] eqn:E.
    + exists s, (after_request w), []. rewrite app_nil_r. simpl.
      repeat split; try lia. intros _ ->. eauto.
    + eexists _, _, _. split; [reflexivity|]. simpl.
      repeat split; try lia. intros _ H. exfalso.
      apply (join_nonempty (LF ++ LF) x y l blank_line_nonempty). exact H.
Qed.

End Service.

(** X5. Whatever the service does, [analyze_period] returns a result that
    carries the period's counts and date range unchanged; it only adds
    lines to the console; and it sends one request per batch plus at most
    one consolidation request, with at most one batch more than the period
    has comments. *)
Theorem analyze_period_cost
    (api : openai) (period_data : period_data string) (w : world) :
  let n := List.length (chunk_comments (comments period_data) default_max_tokens) in
  exists r w' lines,
    analyze_period api period_data w = (Returned r, w')
    /\ pa_period_metadata r
       = {| pm_comment_count := comment_count period_data;
            pm_video_count := video_count period_data;
            pm_unique_authors := unique_authors period_data;
            pm_date_range := date_range period_data |}
    /\ stdout w' = stdout w ++ lines
    /\ (requests w + n <= requests w' <= requests w + n + 1)%nat
    /\ (n <= List.length (comments period_data) + 1)%nat.
Proof.
  intros n. unfold analyze_period. fold n.
  destruct (analyze_chunks_effects api n
              (chunk_comments (comments period_data) default_max_tokens)
              1%nat [] w) as (an & w1 & l1 & E1 & R1 & O1 & _ & _).
  destruct (merge_analyses_effects api an w1) as (s & w2 & l2 & E2 & R2 & O2 & _).
  erewrite bind_returned by exact E1.
  erewrite bind_returned by exact E2.
  unfold ret. eexists _, w2, (l1 ++ l2). split; [reflexivity|].
  split; [reflexivity|].
  split; [rewrite O2, O1, app_assoc; reflexivity|].
  split; [fold n in R1; lia|apply chunk_count_bound].
Qed.


(** X7. A period without comments is analysed without any request and
    without console output: its analysis is the placeholder. *)
Theorem analyze_period_no_comments
    (api : openai) (period_data : period_data string) (w : world) :
  comments period_data = [] ->
  analyze_period api period_data w
  = (Returned {| pa_period_metadata :=
                   {| pm_comment_count := comment_count period_data;
                      pm_video_count := video_count period_data;
                      pm_unique_authors := unique_authors period_data;
                      pm_date_range := date_range period_data |};
                 analysis := "No analysis available." |}, w).
Proof. intros E. unfold analyze_period. rewrite E. reflexivity. Qed.

Lemma analyze_period_no_comments_witness :
  analyze_period service_down
    {| comments := []; video_count := 0; comment_count := 0;
       date_range := ("", ""); unique_authors := 0; videos := [] |} fresh_world
  = (Returned {| pa_period_metadata :=
                   {| pm_comment_count := 0; pm_video_count := 0;
                      pm_unique_authors := 0; pm_date_range := ("", "") |};
                 analysis := "No analysis available." |}, fresh_world).
Proof.
  apply (analyze_period_no_comments service_down
           {| comments := []; video_count := 0; comment_count := 0;
              date_range := ("", ""); unique_authors := 0; videos := [] |}).
  reflexivity.
Defined.

(** X8. When every request to the summarizing entry point fails, the
    analysis of the period is the placeholder: one request was tried per
    batch and no consolidation request was sent. *)
Theorem analyze_period_all_fail
    (api : openai) (period_data : period_data string) (w : world) :
  (forall r k, exists e, chat_completions_create api r k = Raised e) ->
  exists r w',
    analyze_period api period_data w = (Returned r, w')
    /\ analysis r = "No analysis available."
    /\ requests w'
       = (requests w
          + List.length (chunk_comments (comments period_data) default_max_tokens))%nat.
Proof.
  intros Hfail. unfold analyze_period.
  set (chunks := chunk_comments (comments period_data) default_max_tokens).
  destruct (analyze_chunks_all_fail api (List.length chunks) chunks Hfail 1%nat [] w)
    as (w1 & E1 & R1).
  erewrite bind_returned by exact E1.
  erewrite bind_returned by apply merge_analyses_none.
  unfold ret. eexists _, w1. split; [reflexivity|]. split; [reflexivity|exact R1].
Qed.

Lemma analyze_period_all_fail_witness :
  exists r w',
    analyze_period service_down sample_period fresh_world = (Returned r, w')
    /\ analysis r = "No analysis available."
    /\ requests w'
       = (requests fresh_world
          + List.length (chunk_comments (comments sample_period) default_max_tokens))%nat.
Proof.
  apply (analyze_period_all_fail service_down sample_period fresh_world).
  intros r k. exists "Connection error.". reflexivity.
Defined.

(** X9. A period whose comments fit one batch, answered with non-empty
    content, costs exactly one request: the answer is the analysis as it
    is, no consolidation request is sent, and one progress line is
    printed. *)
Theorem analyze_period_single_batch
    (api : openai) (period_data : period_data string) (w : world) (s : string) :
  comments period_data <> [] ->
  chunk_tokens (comments period_data) <= default_max_tokens ->
  chat_completions_create api (chunk_request (comments period_data)) (requests w)
  = Returned s ->
  s <> "" ->
  analyze_period api period_data w
  = (Returned {| pa_period_metadata :=
                   {| pm_comment_count := comment_count period_data;
                      pm_video_count := video_count period_data;
                      pm_unique_authors := unique_authors period_data;
                      pm_date_range := date_range period_data |};
                 analysis := s |},
     {| stdout := stdout w ++
          [("Analyzing chunk 1/1 ("
            ++ str_of_nat (List.length (comments period_data))
            ++ " comments)")%string];
        requests := S (requests w) |}).
Proof.
  intros Hne Hfit Hs Hs'. unfold analyze_period.
  assert (E : chunk_comments (comments period_data) default_max_tokens
              = [comments period_data]).
  { unfold chunk_comments, chunk_init. change 0 with (chunk_tokens []).
    rewrite (run_fits default_max_tokens (comments period_data) []); [|exact Hfit].
    unfold chunk_finish. simpl. destruct (comments period_data); [congruence|reflexivity]. }
  rewrite E. simpl.
  erewrite bind_returned.
  2:{ erewrite bind_returned by (unfold print; reflexivity).
      match goal with |- context [bind (analyze_chunk api ?c) _ ?w0] =>
        pose proof (analyze_chunk_cases api c w0) as C
      end.
      cbn [requests] in C. rewrite Hs in C.
      erewrite bind_returned by exact C.
      destruct (String.eqb_spec s ""); [contradiction|]. reflexivity. }
  reflexivity.
Qed.

Lemma analyze_period_single_batch_witness :
  analyze_period service_echo sample_period fresh_world
  = (Returned {| pa_period_metadata :=
                   {| pm_comment_count := 2; pm_video_count := 1;
                      pm_unique_authors := 2;
                      pm_date_range := ("2024-09-01 10:00:00", "2024-09-30 18:30:00") |};
                 analysis := "Main topics: fees." |},
     {| stdout := ["Analyzing chunk 1/1 (2 comments)"]; requests := 1 |}).
Proof.
  apply (analyze_period_single_batch service_echo sample_period fresh_world
           "Main topics: fees.").
  - discriminate.
  - vm_compute. discriminate.
  - reflexivity.
  - discriminate.
Defined.

End SummaryMore.

(* ================================================================== *)
(** * More on the period segmenter: markers, labels, grouping, main *)
(* ================================================================== *)

Module GrouperMore.
Import Grouper Notions GrouperFacts.

(** ** Substring search and case folding *)

Lemma prefix_app (p s : string) :
  String.prefix p s = true <-> exists post, s = (p ++ post)%string.
Proof.
  revert s. induction p as [|a p IH]; intros s; simpl.
  - destruct s; split; eauto.
  - destruct s as [|b s].
    + split; [discriminate|]. intros [post H]. discriminate.
    + simpl. destruct (Ascii.ascii_dec a b) as [E|Hne].
      * subst b. rewrite IH. split; intros [post H]; exists post; congruence.
      * split; [discriminate|]. intros [post H]. congruence.
Qed.

Lemma str_find_app (pat s : string) :
  str_find pat s = true <-> exists pre post, s = (pre ++ pat ++ post)%string.
Proof.
  induction s as [|b s IH]; cbn [str_find]; rewrite orb_true_iff, prefix_app.
  - split.
    + intros [[post H]|H]; [|discriminate]. exists "", post. exact H.
    + intros (pre & post & H). left.
      destruct pre; [eauto|discriminate].
  - rewrite IH. split.
    + intros [[post H]|(pre & post & H)].
      * exists "", post. exact H.
      * exists (String b pre), post. simpl. now rewrite H.
    + intros (pre & post & H). destruct pre as [|c pre]; simpl in H.
      * left. eauto.
      * right. exists pre, post. congruence.
Qed.

Lemma lowercase_app (a b : string) :
  lowercase (a ++ b) = (lowercase a ++ lowercase b)%string.
Proof. induction a as [|c a IH]; simpl; [reflexivity|now rewrite IH]. Qed.

Lemma lowercase_split (s a b : string) :
  lowercase s = (a ++ b)%string ->
  exists a' b', s = (a' ++ b')%string /\ lowercase a' = a /\ lowercase b' = b.
Proof.
  revert s. induction a as [|c a IH]; intros s H; simpl in H.
  - exists "", s. auto.
  - destruct s as [|d s]; [discriminate|]. simpl in H.
    injection H as Hc Hs. destruct (IH s Hs) as (a' & b' & -> & Ha & Hb).
    exists (String d a'), b'. simpl. rewrite Ha, Hc. auto.
Qed.

(** ** Distinct values, for any decidable equality *)

Section Unique.
Context {A : Type} (eqb : A -> A -> bool).
Hypothesis eqb_eq : forall x y, eqb x y = true <-> x = y.

Lemma existsb_eqb x seen : existsb (eqb x) seen = true <-> In x seen.
Proof.
  rewrite existsb_exists. split.
  - intros (y & Hy & E). apply eqb_eq in E. now subst.
  - intros H. exists x. split; [exact H|now apply eqb_eq].
Qed.

Lemma unique_from_spec seen l x :
  In x (unique_from eqb seen l) <-> In x l /\ ~ In x seen.
Proof.
  revert seen. induction l as [|y l IH]; intro seen; simpl; [tauto|].
  destruct (existsb (eqb y) seen) eqn:E.
  - apply existsb_eqb in E. rewrite IH. split; [tauto|].
    intros [[->|H] Hn]; tauto.
  - assert (Hy : ~ In y seen).
    { intros H. apply existsb_eqb in H. congruence. }
    simpl. rewrite IH. simpl. split.
    + intros [->|[H Hn]]; tauto.
    + intros [[->|H] Hn]; [tauto|].
      destruct (eqb y x) eqn:Eyx.
      * apply eqb_eq in Eyx. tauto.
      * right. split; [exact H|]. intros [Heq|Hs]; [|tauto].
        apply eqb_eq in Heq. congruence.
Qed.

Lemma unique_from_nodup seen l : NoDup (unique_from eqb seen l).
Proof.
  revert seen. induction l as [|y l IH]; intro seen; simpl; [constructor|].
  destruct (existsb (eqb y) seen); [apply IH|].
  constructor; [|apply IH]. rewrite unique_from_spec. simpl. tauto.
Qed.

Lemma unique_In l x : In x (unique eqb l) <-> In x l.
Proof. unfold unique. rewrite unique_from_spec. simpl. tauto. Qed.

Lemma unique_NoDup l : NoDup (unique eqb l).
Proof. apply unique_from_nodup. Qed.


End Unique.

Lemma option_eqb_eq (a b : option string) :
  option_eqb String.eqb a b = true <-> a = b.
Proof.
  destruct a as [x|], b as [y|]; simpl; try (split; [discriminate|congruence]).
  - rewrite String.eqb_eq. split; congruence.
  - tauto.
Qed.

(** ** Labels *)

Lemma digits_before_colon (d d' : Decimal.uint) (r r' : string) :
  (NilEmpty.string_of_uint d ++ String ":" r)%string
  = (NilEmpty.string_of_uint d' ++ String ":" r')%string ->
  d = d'.
Proof.
  revert d'. induction d; destruct d'; simpl; intros H;
    try discriminate; try reflexivity;
    injection H as H; f_equal; eauto.
Qed.

Lemma str_of_nat_before_colon (n m : nat) (r r' : string) :
  (str_of_nat n ++ String ":" r)%string = (str_of_nat m ++ String ":" r')%string ->
  n = m.
Proof.
  unfold str_of_nat. intros H. apply digits_before_colon in H.
  rewrite <- (DecimalNat.Unsigned.of_to n), <- (DecimalNat.Unsigned.of_to m).
  now rewrite H.
Qed.

Section Calendar.
Variable strftime : Z -> string -> string.

(** The number in a label tells the period, whatever the dates render to. *)
Lemma make_label_number i j s e s' e' :
  label (make_label strftime i s e) = label (make_label strftime j s' e') -> i = j.
Proof.
  unfold make_label. cbn [label]. intros H.
  change ("Period " ++ ?x)%string with ("Period " ++ x)%string in H.
  assert (H' : (str_of_nat (i + 1) ++ String ":" (" " ++ strftime s "%Y-%m-%d"
                  ++ " to " ++ strftime e "%Y-%m-%d"))%string
               = (str_of_nat (j + 1) ++ String ":" (" " ++ strftime s' "%Y-%m-%d"
                  ++ " to " ++ strftime e' "%Y-%m-%d"))%string).
  { simpl in H. injection H as H. exact H. }
  apply str_of_nat_before_colon in H'. lia.
Qed.

Lemma period_labels_label_inj ama_dates p q :
  In p (period_labels strftime ama_dates) ->
  In q (period_labels strftime ama_dates) ->
  label p = label q -> p = q.
Proof.
  intros Hp Hq H.
  apply in_period_labels in Hp as (i & Hi & ->).
  apply in_period_labels in Hq as (j & Hj & ->).
  apply make_label_number in H. now subst.
Qed.

End Calendar.


(** X11. A row is a marker row exactly when its video title is present
    and contains the three letters a, m, a in a row, each in either case;
    a row whose title is missing is no marker. *)
Theorem is_ama_iff (r : comment_row) :
  is_ama r = true <->
  exists title pre m post,
    video_title r = Some title /\
    title = (pre ++ m ++ post)%string /\ lowercase m = "ama".
Proof.
  unfold is_ama, str_contains_nocase. split.
  - destruct (video_title r) as [title|]; [|discriminate].
    intros H. apply str_find_app in H as (pre & post & H).
    apply lowercase_split in H as (pre' & rest & -> & _ & Hrest).
    apply lowercase_split in Hrest as (m & post' & -> & Hm & _).
    exists (pre' ++ m ++ post')%string, pre', m, post'. auto.
  - intros (title & pre & m & post & -> & -> & Hm).
    apply str_find_app. exists (lowercase pre), (lowercase post).
    now rewrite !lowercase_app, Hm.
Qed.

(** X12. The labels of the periods are pairwise distinct, for any dates
    and any rendering of dates: the period number in the label tells them
    apart, also when two periods start and end on the same calendar days. *)
Theorem period_labels_distinct
    (strftime : Z -> string -> string) (ama_dates : list Z) :
  NoDup (map label (period_labels strftime ama_dates)).
Proof.
  unfold period_labels. rewrite map_map.
  apply Finite.Injective_map_NoDup_in.
  - intros i j _ _ H. now apply make_label_number in H.
  - apply seq_NoDup.
Qed.

(** ** Minimum and maximum of a column *)

Lemma fold_min_spec l : forall x,
  In (fold_left Z.min l x) (x :: l) /\
  forall y, In y (x :: l) -> fold_left Z.min l x <= y.
Proof.
  induction l as [|z l IH]; intros x; simpl.
  - split; [auto|]. intros y [->|[]]. lia.
  - destruct (IH (Z.min x z)) as [Hin Hle]. split.
    + destruct Hin as [H|H]; [|auto].
      rewrite <- H. destruct (Z.min_spec x z) as [[_ ->]|[_ ->]]; auto.
    + intros y Hy.
      assert (fold_left Z.min l (Z.min x z) <= Z.min x z) by (apply Hle; now left).
      destruct Hy as [->|[->|Hy]]; [lia|lia|]. apply Hle. now right.
Qed.

Lemma fold_max_spec l : forall x,
  In (fold_left Z.max l x) (x :: l) /\
  forall y, In y (x :: l) -> y <= fold_left Z.max l x.
Proof.
  induction l as [|z l IH]; intros x; simpl.
  - split; [auto|]. intros y [->|[]]. lia.
  - destruct (IH (Z.max x z)) as [Hin Hle]. split.
    + destruct Hin as [H|H]; [|auto].
      rewrite <- H. destruct (Z.max_spec x z) as [[_ ->]|[_ ->]]; auto.
    + intros y Hy.
      assert (Z.max x z <= fold_left Z.max l (Z.max x z)) by (apply Hle; now left).
      destruct Hy as [->|[->|Hy]]; [lia|lia|]. apply Hle. now right.
Qed.

Lemma series_min_max l :
  l <> [] ->
  In (series_min l) l /\ In (series_max l) l /\
  forall y, In y l -> series_min l <= y <= series_max l.
Proof.
  destruct l as [|x l]; [congruence|]. intros _. unfold series_min, series_max.
  destruct (fold_min_spec l x) as [H1 H2], (fold_max_spec l x) as [H3 H4].
  repeat split; auto.
Qed.

(** ** group_comments_by_period *)

(** The rows of one period in a labelled table. *)
Lemma group_In rows lbl data :
  In (lbl, data) (group_comments_by_period rows) <->
  In (Some lbl) (map snd rows) /\ data = group_period rows lbl.
Proof.
  unfold group_comments_by_period. rewrite in_flat_map. split.
  - intros ([p|] & Hk & Hin); [|destruct Hin].
    destruct Hin as [[= -> ->]|[]].
    apply (proj1 (unique_In _ option_eqb_eq _ _)) in Hk. auto.
  - intros [Hin ->]. exists (Some lbl). split; [|now left].
    now apply (proj2 (unique_In _ option_eqb_eq _ _)).
Qed.

Lemma group_keys rows :
  map fst (group_comments_by_period rows)
  = flat_map (fun k : option string => match k with None => [] | Some p => [p] end)
             (unique (option_eqb String.eqb) (map snd rows)).
Proof.
  unfold group_comments_by_period.
  induction (unique (option_eqb String.eqb) (map snd rows)) as [|[p|] ks IH];
    simpl; [reflexivity| |exact IH].
  now rewrite IH.
Qed.

Lemma somes_In (ks : list (option string)) p :
  In p (flat_map (fun k : option string =>
                    match k with None => [] | Some p => [p] end) ks)
  <-> In (Some p) ks.
Proof.
  rewrite in_flat_map. split.
  - intros ([q|] & Hk & Hin); [|destruct Hin]. destruct Hin as [->|[]]. exact Hk.
  - intros H. exists (Some p). split; [exact H|now left].
Qed.

Lemma somes_NoDup (ks : list (option string)) :
  NoDup ks ->
  NoDup (flat_map (fun k : option string =>
                     match k with None => [] | Some p => [p] end) ks).
Proof.
  induction 1 as [|k ks Hk Hnd IH]; simpl; [constructor|].
  destruct k as [p|]; [|exact IH]. simpl. constructor; [|exact IH].
  now rewrite somes_In.
Qed.

Lemma group_keys_NoDup rows : NoDup (map fst (group_comments_by_period rows)).
Proof.
  rewrite group_keys. apply somes_NoDup, (unique_NoDup _ option_eqb_eq).
Qed.

Lemma group_as_map rows :
  group_comments_by_period rows
  = map (fun p => (p, group_period rows p))
        (map fst (group_comments_by_period rows)).
Proof.
  unfold group_comments_by_period.
  induction (unique (option_eqb String.eqb) (map snd rows)) as [|[p|] ks IH];
    simpl; [reflexivity| |exact IH].
  now rewrite <- IH.
Qed.

Lemma indicator_sum_out (ks : list (option string)) x :
  ~ In x ks ->
  list_sum (map (fun k => if option_eqb String.eqb x k then 1 else 0)%nat ks) = 0%nat.
Proof.
  induction ks as [|k ks IH]; intros Hn; simpl; [reflexivity|].
  destruct (option_eqb String.eqb x k) eqn:E.
  - apply option_eqb_eq in E. subst k. destruct Hn. now left.
  - apply IH. intros H. apply Hn. now right.
Qed.

Lemma indicator_sum_in (ks : list (option string)) x :
  NoDup ks -> In x ks ->
  list_sum (map (fun k => if option_eqb String.eqb x k then 1 else 0)%nat ks) = 1%nat.
Proof.
  induction 1 as [|k ks Hk Hnd IH]; intros Hin; [destruct Hin|]. simpl.
  destruct (option_eqb String.eqb x k) eqn:E.
  - apply option_eqb_eq in E. subst k. now rewrite indicator_sum_out.
  - destruct Hin as [->|Hin]; [|now apply IH].
    rewrite (proj2 (option_eqb_eq x x) eq_refl) in E. discriminate.
Qed.

Lemma count_cons (ks : list (option string)) (r : labelled_row) rows :
  list_sum (map (fun k => List.length
                   (filter (fun row : labelled_row =>
                              option_eqb String.eqb (snd row) k) (r :: rows))) ks)
  = (list_sum (map (fun k => if option_eqb String.eqb (snd r) k then 1 else 0) ks)
     + list_sum (map (fun k => List.length
                   (filter (fun row : labelled_row =>
                              option_eqb String.eqb (snd row) k) rows)) ks))%nat.
Proof.
  induction ks as [|k ks IH]; [reflexivity|].
  unfold list_sum in *. cbn [map fold_right]. rewrite IH. cbn [filter].
  destruct (option_eqb String.eqb (snd r) k); cbn [List.length]; lia.
Qed.

(** Counting the rows of a table by the value of their [period] cell. *)
Lemma count_by_cell (ks : list (option string)) (rows : list labelled_row) :
  NoDup ks ->
  (forall row, In row rows -> In (snd row) ks) ->
  list_sum (map (fun k => List.length
                   (filter (fun row : labelled_row =>
                              option_eqb String.eqb (snd row) k) rows)) ks)
  = List.length rows.
Proof.
  intros Hnd. induction rows as [|r rows IH]; intros Hall.
  - simpl. clear Hnd Hall. induction ks; simpl; [reflexivity|exact IHks].
  - rewrite count_cons, IH, indicator_sum_in; auto.
    + apply Hall. now left.
    + intros row H. apply Hall. now right.
Qed.

Lemma filter_length_split {A} (f : A -> bool) (l : list A) :
  (List.length (filter f l) + List.length (filter (fun x => negb (f x)) l)
   = List.length l)%nat.
Proof.
  induction l as [|x l IH]; simpl; [reflexivity|].
  destruct (f x); simpl; lia.
Qed.

Lemma total_as_counts rows :
  total_comment_count (group_comments_by_period rows)
  = list_sum (map (fun p => List.length
                     (filter (fun row : labelled_row =>
                                option_eqb String.eqb (snd row) (Some p)) rows))
                  (map fst (group_comments_by_period rows))).
Proof.
  unfold total_comment_count. rewrite (group_as_map rows) at 1.
  rewrite map_map. f_equal. apply map_ext. intros p.
  cbn [snd comment_count group_period]. now rewrite length_map.
Qed.

Lemma filter_assigned_same (rows : list labelled_row) p :
  filter (fun row : labelled_row => option_eqb String.eqb (snd row) (Some p))
         (filter (fun row : labelled_row =>
                    match snd row with None => false | Some _ => true end) rows)
  = filter (fun row : labelled_row => option_eqb String.eqb (snd row) (Some p)) rows.
Proof.
  induction rows as [|[r [q|]] rows IH]; [reflexivity| |exact IH].
  cbn [filter snd option_eqb]. now rewrite IH.
Qed.

(** Every row of a labelled table is counted in one period or is left
    unassigned. *)
Lemma group_counts rows :
  (total_comment_count (group_comments_by_period rows)
   + List.length (unassigned rows) = List.length rows)%nat.
Proof.
  set (is_some := fun row : labelled_row =>
                    match snd row with None => false | Some _ => true end).
  assert (Hun : List.length (unassigned rows)
                = List.length (filter (fun x => negb (is_some x)) rows)).
  { unfold unassigned. f_equal. apply filter_ext.
    intros [r [c|]]; reflexivity. }
  rewrite Hun, <- (filter_length_split is_some rows). f_equal.
  rewrite total_as_counts.
  rewrite <- (count_by_cell
                (map Some (map fst (group_comments_by_period rows)))
                (filter is_some rows)).
  - rewrite (map_map Some). f_equal. apply map_ext. intros p.
    unfold is_some. now rewrite filter_assigned_same.
  - apply Finite.Injective_map_NoDup_in; [|apply group_keys_NoDup].
    intros x y _ _ H. congruence.
  - intros [r c] Hrow. apply filter_In in Hrow as [Hrow Hs].
    unfold is_some in Hs. cbn [snd] in *. destruct c as [q|]; [|discriminate].
    apply in_map. rewrite group_keys, somes_In.
    apply (proj2 (unique_In _ option_eqb_eq _ _)).
    apply in_map_iff. exists (r, Some q). auto.
Qed.


Section Calendar2.
Variable strftime : Z -> string -> string.

(** With ascending dates, the rows labelled with a period are the rows
    whose timestamp lies in its interval, in table order. *)
Lemma assigned_rows ama_dates df p :
  StronglySorted Z.lt ama_dates ->
  In p (period_labels strftime ama_dates) ->
  map fst (filter (fun row : labelled_row =>
                     option_eqb String.eqb (snd row) (Some (label p)))
                  (assign_periods strftime df ama_dates))
  = rows_in_period p df.
Proof.
  intros Hs Hp. rewrite assign_periods_rows, filter_map_swap, map_map.
  cbn [fst snd]. rewrite map_id. unfold rows_in_period.
  apply filter_ext. intros r. set (t := published_at r).
  set (periods := period_labels strftime ama_dates).
  destruct (in_period p t) eqn:E.
  - apply option_eqb_eq. apply period_cell_some.
    + intros q Hq Hqt. apply in_period_iff in Hqt, E.
      now rewrite (period_labels_disjoint strftime ama_dates p q t).
    + eauto.
  - destruct (period_cell_origin periods t None) as [H|(q & Hq & Hqt & H)];
      rewrite H; [reflexivity|].
    cbn [option_eqb]. apply String.eqb_neq. intros Hl.
    apply (period_labels_label_inj strftime ama_dates q p Hq Hp) in Hl.
    congruence.
Qed.

Lemma assigned_cell_label ama_dates df lbl :
  In (Some lbl) (map snd (assign_periods strftime df ama_dates)) ->
  exists p r, In p (period_labels strftime ama_dates) /\ lbl = label p /\
              In r df /\ in_period p (published_at r) = true.
Proof.
  rewrite assign_periods_rows, map_map. cbn [snd]. intros H.
  apply in_map_iff in H as (r & Hc & Hr).
  destruct (period_cell_origin (period_labels strftime ama_dates)
              (published_at r) None) as [H|(p & Hp & Ht & H)]; [congruence|].
  exists p, r. repeat split; auto. congruence.
Qed.

End Calendar2.

(** X13. With boundaries cut from strictly ascending timestamps, every
    entry of the grouped result belongs to one boundary: its comments are
    the texts of the rows whose timestamp lies in that interval, in table
    order, its comment count is their number, and its date range lies
    inside the interval.  A boundary has an entry exactly when some row
    lies in its interval. *)
Theorem group_by_interval
    (strftime : Z -> string -> string) (ama_dates : list Z) (df : DataFrame) :
  StronglySorted Z.lt ama_dates ->
  let periods := group_comments_by_period (assign_periods strftime df ama_dates) in
  (forall lbl data, In (lbl, data) periods ->
     exists p, In p (period_labels strftime ama_dates) /\ lbl = label p /\
       comments data = map text (rows_in_period p df) /\
       comment_count data = List.length (rows_in_period p df) /\
       p_start p <= fst (date_range data) /\ snd (date_range data) < p_end p) /\
  (forall p, In p (period_labels strftime ama_dates) ->
     (In (label p) (map fst periods) <-> rows_in_period p df <> [])).
Proof.
  intros Hs periods. split.
  - intros lbl data Hin. apply group_In in Hin as [Hcell ->].
    destruct (assigned_cell_label strftime ama_dates df lbl Hcell)
      as (p & r & Hp & -> & Hr & Ht).
    exists p. split; [exact Hp|]. split; [reflexivity|].
    unfold group_period. cbn [comments comment_count date_range fst snd].
    rewrite (assigned_rows strftime ama_dates df p Hs Hp).
    split; [reflexivity|]. split; [reflexivity|].
    assert (Hne : map published_at (rows_in_period p df) <> []).
    { intros E. apply map_eq_nil in E.
      assert (In r (rows_in_period p df)) by (apply filter_In; auto).
      rewrite E in *. auto. }
    destruct (series_min_max _ Hne) as (Hmin & Hmax & _).
    apply in_map_iff in Hmin as (r1 & <- & H1), Hmax as (r2 & <- & H2).
    apply filter_In in H1 as [_ H1], H2 as [_ H2].
    apply in_period_iff in H1, H2. lia.
  - intros p Hp. unfold periods. rewrite group_keys, somes_In.
    rewrite (unique_In _ option_eqb_eq). split.
    + intros Hcell E.
      destruct (assigned_cell_label strftime ama_dates df _ Hcell)
        as (q & r & Hq & Hl & Hr & Ht).
      apply (period_labels_label_inj strftime ama_dates p q Hp Hq) in Hl. subst q.
      assert (In r (rows_in_period p df)) by (apply filter_In; auto).
      rewrite E in *. auto.
    + intros Hne. destruct (rows_in_period p df) as [|r l] eqn:E; [congruence|].
      assert (Hr : In r (rows_in_period p df)) by (rewrite E; now left).
      pose proof (assigned_rows strftime ama_dates df p Hs Hp) as Ha.
      rewrite <- Ha in Hr. apply in_map_iff in Hr as ([r' c] & _ & Hrow).
      apply filter_In in Hrow as [Hrow Hc]. cbn [snd] in Hc.
      apply option_eqb_eq in Hc. subst c.
      apply in_map_iff. exists (r', Some (label p)). auto.
Qed.

Lemma group_by_interval_witness :
  StronglySorted Z.lt three_dates /\
  (forall p, In p (period_labels digits_strftime three_dates) ->
     (In (label p)
         (map fst (group_comments_by_period
                     (assign_periods digits_strftime sample_table three_dates)))
      <-> rows_in_period p sample_table <> [])).
Proof.
  assert (Hs : StronglySorted Z.lt three_dates).
  { unfold three_dates. repeat constructor. }
  split; [exact Hs|].
  exact (proj2 (group_by_interval digits_strftime three_dates sample_table Hs)).
Defined.

(** X14. Grouping loses no comment silently: for any table and any dates,
    the comment counts of the periods and the number of rows left without
    a period add up to the number of rows of the table. *)
Theorem group_counts_conserved
    (strftime : Z -> string -> string) (ama_dates : list Z) (df : DataFrame) :
  let rows := assign_periods strftime df ama_dates in
  (total_comment_count (group_comments_by_period rows)
   + List.length (unassigned rows) = List.length df)%nat.
Proof.
  intros rows. rewrite group_counts. unfold rows.
  now rewrite assign_periods_rows, length_map.
Qed.



(** ** Overlapping periods and main *)

Lemma find_app {A} (f : A -> bool) (l1 l2 : list A) :
  find f (l1 ++ l2)
  = match find f l1 with Some x => Some x | None => find f l2 end.
Proof.
  induction l1 as [|x l1 IH]; simpl; [reflexivity|].
  destruct (f x); [reflexivity|exact IH].
Qed.

Lemma period_cell_last_match periods t : forall cell,
  period_cell periods t cell
  = match find (fun p => in_period p t) (rev periods) with
    | Some p => Some (label p)
    | None => cell
    end.
Proof.
  induction periods as [|q periods IH]; intros cell; simpl; [reflexivity|].
  fold (period_cell periods t (if in_period q t then Some (label q) else cell)).
  rewrite IH, find_app. simpl.
  destruct (find (fun p => in_period p t) (rev periods)); [reflexivity|].
  destruct (in_period q t); reflexivity.
Qed.

Lemma flat_map_length4 {A B} (f : A -> list B) (l : list A) :
  (forall x, List.length (f x) = 4%nat) ->
  List.length (flat_map f l) = (4 * List.length l)%nat.
Proof.
  intros H. induction l as [|x l IH]; simpl; [reflexivity|].
  rewrite length_app, H, IH. lia.
Qed.

(** X16. For any dates, sorted or not, [assign_periods] keeps the rows and
    their order, and gives a row the label of the last period, in the
    order of the dates, whose interval holds the row's timestamp; a row
    that no interval holds gets no period. *)
Theorem assign_periods_last_match
    (strftime : Z -> string -> string) (ama_dates : list Z) (df : DataFrame) :
  assign_periods strftime df ama_dates
  = map (fun r =>
           (r, option_map label
                 (find (fun p => in_period p (published_at r))
                       (rev (period_labels strftime ama_dates)))))
        df.
Proof.
  rewrite assign_periods_rows. apply map_ext. intros r.
  rewrite period_cell_last_match.
  destruct (find _ _); reflexivity.
Qed.

(** X17. [main] writes the grouped document exactly when the table holds
    at least two distinct marker timestamps.  The document then has
    pairwise distinct period labels, at most one entry per boundary, and
    its comment counts plus the rows left without a period add up to the
    table's row count; the first line printed reports the row count and
    the number of entries, followed by four lines per entry. *)
Theorem main_written (strftime : Z -> string -> string) (df : DataFrame) :
  (written (main strftime df) = None
   <-> (distinct_marker_timestamps df < 2)%nat) /\
  forall doc, written (main strftime df) = Some doc ->
    NoDup (map fst doc) /\
    (List.length doc <= distinct_marker_timestamps df - 1)%nat /\
    (total_comment_count doc
     + List.length (unassigned (assign_periods strftime df (find_ama_dates df)))
     = List.length df)%nat /\
    hd "" (printed (main strftime df))
    = ("Grouped " ++ str_of_nat (List.length df) ++ " comments into "
       ++ str_of_nat (List.length doc) ++ " periods")%string /\
    List.length (printed (main strftime df)) = (1 + 4 * List.length doc)%nat.
Proof.
  unfold main. rewrite find_ama_dates_length.
  destruct (Nat.ltb_spec (distinct_marker_timestamps df) 2) as [Hlt|Hge].
  - split; [tauto|]. intros doc H. discriminate.
  - cbn [written printed]. split.
    + split; [discriminate|lia].
    + intros doc [= <-].
      set (rows := assign_periods strftime df (find_ama_dates df)).
      assert (Hfst : map fst (save_grouped_data strftime (group_comments_by_period rows))
                     = map fst (group_comments_by_period rows)).
      { unfold save_grouped_data. rewrite map_map. reflexivity. }
      assert (Hlen : List.length (save_grouped_data strftime (group_comments_by_period rows))
                     = List.length (group_comments_by_period rows)).
      { unfold save_grouped_data. apply length_map. }
      split; [rewrite Hfst; apply group_keys_NoDup|].
      split.
      { rewrite Hlen, <- (length_map fst), <- (find_ama_dates_length df).
        rewrite <- (period_labels_length strftime),
                <- (length_map label (period_labels strftime (find_ama_dates df))).
        apply NoDup_incl_length; [apply group_keys_NoDup|].
        intros lbl Hl. rewrite group_keys, somes_In in Hl.
        apply (proj1 (unique_In _ option_eqb_eq _ _)) in Hl.
        destruct (assigned_cell_label strftime _ df lbl Hl) as (p & r & Hp & -> & _).
        now apply in_map. }
      split.
      { replace (total_comment_count
                   (save_grouped_data strftime (group_comments_by_period rows)))
          with (total_comment_count (group_comments_by_period rows)).
        - rewrite group_counts. unfold rows.
          now rewrite assign_periods_rows, length_map.
        - unfold total_comment_count, save_grouped_data. rewrite map_map.
          reflexivity. }
      split; [cbn [hd]; now rewrite Hlen|].
      cbn [List.length]. rewrite Hlen.
      rewrite flat_map_length4; reflexivity.
Qed.

End GrouperMore.

(* ================================================================== *)
(** * The analyzer's main, and the two scripts in sequence *)
(* ================================================================== *)

Module PipelineMore.
Import Analyzer AnalyzerMain Notions SummaryFacts SummaryMore.
Import BatcherMore GrouperFacts GrouperMore.
Local Open Scope py_scope.

Lemma dict_set_fresh {V} (d : list (string * V)) k v :
  ~ In k (map fst d) -> dict_set d k v = d ++ [(k, v)].
Proof.
  induction d as [|[k' v'] d IH]; intros Hn; simpl; [reflexivity|].
  destruct (String.eqb_spec k' k) as [->|Hne].
  - destruct Hn. now left.
  - rewrite IH; [reflexivity|]. intros H. apply Hn. now right.
Qed.

Lemma analysis_of_keys periods analyses :
  Forall2 analysis_of periods analyses -> map fst analyses = map fst periods.
Proof.
  induction 1 as [|e a periods analyses [Hk _] _ IH]; simpl; [reflexivity|].
  now rewrite Hk, IH.
Qed.


Section Service.
Variable api : openai.

(** What [analyze_period] does, in one statement. *)
Lemma analyze_period_effects data w :
  exists r w',
    analyze_period api data w = (Returned r, w')
    /\ pa_period_metadata r = metadata_of data
    /\ (requests w <= requests w' <= requests w + List.length (comments data) + 2)%nat.
Proof.
  unfold analyze_period.
  set (chunks := chunk_comments (comments data) default_max_tokens).
  destruct (analyze_chunks_effects api (List.length chunks) chunks 1%nat [] w)
    as (an & w1 & l1 & E1 & R1 & _ & _ & _).
  destruct (merge_analyses_effects api an w1) as (s & w2 & l2 & E2 & R2 & _ & _).
  erewrite bind_returned by exact E1.
  erewrite bind_returned by exact E2.
  unfold ret. eexists _, w2. split; [reflexivity|]. split; [reflexivity|].
  pose proof (chunk_count_bound (comments data) default_max_tokens).
  fold chunks in H. lia.
Qed.

Lemma print_summary_returns analyses w :
  exists w', print_summary analyses w = (Returned tt, w')
             /\ requests w' = requests w.
Proof.
  revert w. induction analyses as [|[k a] analyses IH]; intros w; simpl.
  - exists w. auto.
  - repeat (erewrite bind_returned by (unfold print; reflexivity)).
    match goal with |- context [print_summary analyses ?w0] =>
      destruct (IH w0) as (w' & E & R) end.
    exists w'. split; [exact E|]. rewrite R. reflexivity.
Qed.

Lemma analyze_periods_spec rest : forall done acc w,
  NoDup (map fst done ++ map fst rest) ->
  Forall2 analysis_of done acc ->
  exists analyses w',
    analyze_periods api rest acc w = (Returned analyses, w')
    /\ Forall2 analysis_of (done ++ rest) analyses
    /\ (requests w' <= requests w + request_budget rest)%nat.
Proof.
  induction rest as [|[k data] rest IH]; intros done acc w Hnd Hacc; simpl.
  - exists acc, w. rewrite app_nil_r. split; [reflexivity|]. split; [exact Hacc|].
    unfold request_budget. simpl. lia.
  - erewrite bind_returned by (unfold print; reflexivity).
    match goal with |- context [bind (analyze_period api data) _ ?w0] =>
      destruct (analyze_period_effects data w0) as (r & w1 & E & Hm & R) end.
    erewrite bind_returned by exact E.
    assert (Hk : ~ In k (map fst acc)).
    { rewrite (analysis_of_keys _ _ Hacc). simpl in Hnd.
      apply NoDup_remove_2 in Hnd. intros H. apply Hnd, in_or_app. now left. }
    rewrite (dict_set_fresh acc k r Hk).
    destruct (IH (done ++ [(k, data)]) (acc ++ [(k, r)]) w1)
      as (analyses & w' & E' & F & R').
    + rewrite map_app, <- app_assoc. exact Hnd.
    + apply Forall2_app; [exact Hacc|]. constructor; [|constructor].
      split; [reflexivity|exact Hm].
    + exists analyses, w'. split; [exact E'|].
      split; [now rewrite <- app_assoc in F|].
      change (request_budget ((k, data) :: rest))
        with (List.length (comments data) + 2 + request_budget rest)%nat.
      cbn [requests] in R. lia.
Qed.

Lemma main_spec periods w :
  NoDup (map fst periods) ->
  exists analyses w',
    main api periods w = (Returned analyses, w')
    /\ Forall2 analysis_of periods analyses
    /\ (requests w' <= requests w + request_budget periods)%nat.
Proof.
  intros Hnd. unfold main.
  destruct (analyze_periods_spec periods [] [] w Hnd (Forall2_nil _))
    as (analyses & w1 & E & F & R).
  erewrite bind_returned by exact E.
  erewrite bind_returned by (unfold print; reflexivity).
  match goal with |- context [bind (print_summary analyses) _ ?w0] =>
    destruct (print_summary_returns analyses w0) as (w' & E' & R') end.
  erewrite bind_returned by exact E'.
  exists analyses, w'. split; [reflexivity|]. split; [exact F|].
  rewrite R'. simpl. exact R.
Qed.

End Service.

(** X18. Given periods with pairwise distinct labels, the analyzer's
    [main] returns, whatever the service does: the document written holds
    one analysis per period, under the same label and in the same order,
    each with its period's counts and date range; and the run sends at
    most one request per comment plus two per period. *)
Theorem main_one_analysis_per_period
    (api : openai) (periods : list (string * period_data string)) (w : world) :
  NoDup (map fst periods) ->
  exists analyses w',
    main api periods w = (Returned analyses, w')
    /\ map fst analyses = map fst periods
    /\ Forall2 analysis_of periods analyses
    /\ (requests w' <= requests w + request_budget periods)%nat.
Proof.
  intros Hnd. destruct (main_spec api periods w Hnd) as (a & w' & E & F & R).
  exists a, w'. split; [exact E|]. split; [|split; assumption].
  now apply analysis_of_keys.
Qed.

Lemma main_one_analysis_per_period_witness :
  exists analyses w',
    main service_down [("Period 1", sample_period)] fresh_world
    = (Returned analyses, w')
    /\ map fst analyses = ["Period 1"]
    /\ Forall2 analysis_of [("Period 1", sample_period)] analyses
    /\ (requests w' <= 0 + request_budget [("Period 1", sample_period)])%nat.
Proof.
  apply (main_one_analysis_per_period service_down
           [("Period 1", sample_period)] fresh_world).
  constructor; [intros []|constructor].
Defined.



End PipelineMore.

(* ================================================================== *)
(** * Properties of the scraper *)
(* ================================================================== *)

Module ScraperFacts.
Import Analyzer Scraper SummaryFacts.
Local Open Scope py_scope.

Abbreviation is_video := (fun item => String.eqb (id_kind item) "youtube#video").

Lemma lt_cond {A} (l : list A) (m : Z) :
  (Z.of_nat (List.length l) <? m) = (List.length l <? Z.to_nat m)%nat.
Proof.
  destruct (Z.ltb_spec (Z.of_nat (List.length l)) m),
           (Nat.ltb_spec (List.length l) (Z.to_nat m)); try reflexivity; lia.
Qed.

Lemma firstn_exact {A} (l1 l2 : list A) n :
  (n <= List.length l1)%nat -> firstn n (l1 ++ l2) = firstn n l1.
Proof.
  intros H. rewrite firstn_app.
  replace (n - List.length l1)%nat with 0%nat by lia.
  simpl. apply app_nil_r.
Qed.

(** The inner loop stops at [max_results] videos. *)
Lemma add_videos_spec max_results items : forall videos,
  (List.length videos < Z.to_nat max_results)%nat ->
  add_videos max_results items videos
  = firstn (Z.to_nat max_results) (videos ++ map video_of (filter is_video items)).
Proof.
  induction items as [|item rest IH]; intros videos Hlt; simpl.
  - rewrite app_nil_r. symmetry. apply firstn_all2. lia.
  - destruct (String.eqb (id_kind item) "youtube#video"); [|apply IH, Hlt].
    simpl.
    assert (Hl : List.length (videos ++ [video_of item]) = S (List.length videos))
      by (rewrite length_app; simpl; lia).
    replace (videos ++ video_of item :: map video_of (filter is_video rest))
      with ((videos ++ [video_of item]) ++ map video_of (filter is_video rest))
      by (now rewrite <- app_assoc).
    destruct (Z.geb_spec (Z.of_nat (List.length (videos ++ [video_of item])))
                max_results) as [Hge|Hlt'].
    + rewrite firstn_exact by lia. symmetry. apply firstn_all2. lia.
    + apply IH. lia.
Qed.

(** The loop over the pages against the listing, from any videos already
    collected. *)
Lemma videos_loop_spec max_results request : forall videos w,
  (List.length videos <= Z.to_nat max_results)%nat ->
  fst (videos_loop max_results request videos w)
  = let n := Z.to_nat max_results in
    let vids := videos ++ fst (listed_videos request) in
    if (n <=? List.length vids)%nat then Returned (firstn n vids)
    else match snd (listed_videos request) with
         | None => Returned vids
         | Some e => Raised e
         end.
Proof.
  cbv zeta. set (n := Z.to_nat max_results).
  induction request as [e|items|items next IH]; intros videos w Hle;
    cbn [videos_loop listed_videos fst snd]; rewrite lt_cond; fold n;
    destruct (Nat.ltb_spec (List.length videos) n) as [Hlt|Hge].
  - rewrite app_nil_r.
    destruct (Nat.leb_spec n (List.length videos)); [lia|reflexivity].
  - rewrite app_nil_r.
    destruct (Nat.leb_spec n (List.length videos)); [|lia].
    cbn [ret fst]. now rewrite firstn_all2 by lia.
  - erewrite bind_returned by reflexivity. cbn [ret fst].
    rewrite add_videos_spec by exact Hlt. fold n.
    destruct (Nat.leb_spec n (List.length (videos ++ map video_of (filter is_video items))));
      [reflexivity|].
    now rewrite firstn_all2 by lia.
  - cbn [ret fst].
    destruct (Nat.leb_spec n (List.length (videos ++ map video_of (filter is_video items))))
      as [_|H]; [|rewrite length_app in H; lia].
    rewrite firstn_exact by lia. now rewrite firstn_all2 by lia.
  - erewrite bind_returned by reflexivity.
    rewrite add_videos_spec by exact Hlt. fold n.
    set (page := map video_of (filter is_video items)).
    rewrite IH by (rewrite length_firstn; lia).
    rewrite app_assoc.
    destruct (Nat.le_gt_cases (List.length (videos ++ page)) n) as [Hall|Hcut].
    + now rewrite (firstn_all2 (videos ++ page)) by exact Hall.
    + assert (Hn : List.length (firstn n (videos ++ page)) = n)
        by (rewrite length_firstn; lia).
      pose proof (length_app (firstn n (videos ++ page)) (fst (listed_videos next)))
        as L1.
      pose proof (length_app (videos ++ page) (fst (listed_videos next))) as L2.
      destruct (Nat.leb_spec n (List.length (firstn n (videos ++ page)
                                  ++ fst (listed_videos next)))); [|lia].
      destruct (Nat.leb_spec n (List.length ((videos ++ page)
                                  ++ fst (listed_videos next)))); [|lia].
      rewrite (firstn_exact (firstn n (videos ++ page)) _ n) by lia.
      rewrite (firstn_exact (videos ++ page) _ n) by lia.
      now rewrite firstn_firstn, Nat.min_id.
  - cbn [ret fst].
    destruct (Nat.leb_spec n (List.length (videos ++
                map video_of (filter is_video items) ++ fst (listed_videos next))))
      as [_|H]; [|rewrite length_app in H; lia].
    rewrite firstn_exact by lia. now rewrite firstn_all2 by lia.
Qed.

Lemma get_channel_videos_expected youtube channel_id max_results w :
  fst (get_channel_videos youtube channel_id max_results w)
  = expected_videos max_results (search_list youtube channel_id).
Proof.
  unfold get_channel_videos, expected_videos.
  rewrite videos_loop_spec by (simpl; lia). reflexivity.
Qed.

(** The loop over the pages of comments, from any comments already
    collected: it returns, with whole pages of the listing added in order. *)
Lemma comments_loop_spec video_id max_comments request : forall comments w,
  exists result w' taken rest,
    comments_loop video_id max_comments request comments w = (Returned result, w')
    /\ result = comments ++ taken
    /\ listed_comments request = taken ++ rest
    /\ (Z.of_nat (List.length result) < max_comments -> rest = [])
    /\ (forall m, pages_at_most m request ->
          Z.of_nat (List.length comments) < max_comments + Z.of_nat m ->
          Z.of_nat (List.length result) < max_comments + Z.of_nat m)
    /\ (max_comments <= Z.of_nat (List.length comments) -> result = comments /\ w' = w).
Proof.
  induction request as [e|items|items next IH]; intros comments w;
    cbn [comments_loop listed_comments pages_at_most];
    destruct (Z.ltb_spec (Z.of_nat (List.length comments)) max_comments) as [Hlt|Hge].
  - erewrite bind_returned by reflexivity.
    erewrite bind_returned by (unfold print; reflexivity).
    eexists comments, _, [], []. rewrite app_nil_r.
    split; [reflexivity|]. repeat split; auto; lia.
  - exists comments, w, [], []. rewrite app_nil_r. repeat split; auto; lia.
  - erewrite bind_returned by reflexivity.
    eexists _, _, (map comment_of items), []. rewrite app_nil_r.
    split; [reflexivity|]. repeat split; auto; try lia.
    intros m Hm _. rewrite length_app, length_map. lia.
  - exists comments, w, [], (map comment_of items). rewrite app_nil_r.
    repeat split; auto; lia.
  - erewrite bind_returned by reflexivity.
    match goal with |- context [comments_loop _ _ next ?c ?w0] =>
      destruct (IH c w0) as (result & w' & taken & rest & E & Hr & Hl & Hrest & Hb & _)
    end.
    exists result, w', (map comment_of items ++ taken), rest.
    split; [exact E|]. split; [now rewrite Hr, app_assoc|].
    split; [now rewrite Hl, app_assoc|]. split; [exact Hrest|].
    split; [|lia].
    intros m [Hm Hnext] _. apply Hb; [exact Hnext|].
    rewrite length_app, length_map. lia.
  - exists comments, w, [], (map comment_of items ++ listed_comments next).
    rewrite app_nil_r. repeat split; auto; lia.
Qed.

Section Client.
Variable youtube : youtube.

Lemma get_video_comments_listed video_id max_comments w :
  exists result w',
    get_video_comments youtube video_id max_comments w = (Returned result, w')
    /\ forall c, In c result ->
         In c (listed_comments
                 (commentThreads_list youtube video_id (Z.min max_comments 100))).
Proof.
  unfold get_video_comments.
  destruct (comments_loop_spec video_id max_comments
              (commentThreads_list youtube video_id (Z.min max_comments 100)) [] w)
    as (result & w' & taken & rest & E & Hr & Hl & _).
  exists result, w'. split; [exact E|]. intros c Hc.
  rewrite Hl. apply in_or_app. left. now rewrite Hr in Hc.
Qed.

(** The loop over the videos returns, and it only adds rows made of a
    video of the list and a comment listed for it. *)
Lemma scrape_videos_spec n max_comments videos : forall i rows w,
  exists result w',
    scrape_videos youtube n i videos max_comments rows w = (Returned result, w')
    /\ forall row, In row result ->
         In row rows \/
         exists v c,
           In v videos /\
           In c (listed_comments
                   (commentThreads_list youtube (v_video_id v)
                      (Z.min max_comments 100))) /\
           row = with_video v c.
Proof.
  induction videos as [|video rest IH]; intros i rows w; simpl.
  - exists rows, w. split; [reflexivity|auto].
  - erewrite bind_returned by (unfold print; reflexivity).
    match goal with |- context [bind (get_video_comments _ _ _) _ ?w0] =>
      destruct (get_video_comments_listed (v_video_id video) max_comments w0)
        as (cs & w1 & E & Hcs) end.
    erewrite bind_returned by exact E.
    erewrite bind_returned by (unfold print; reflexivity).
    match goal with |- context [scrape_videos _ _ ?j rest _ ?r ?w2] =>
      destruct (IH j r w2) as (result & w' & E' & Hres) end.
    exists result, w'. split; [exact E'|]. intros row Hrow.
    destruct (Hres row Hrow) as [Hin|(v & c & Hv & Hc & ->)].
    + apply in_app_or in Hin as [Hin|Hin]; [now left|]. right.
      apply in_map_iff in Hin as (c & <- & Hc). exists video, c.
      split; [now left|]. split; [now apply Hcs|reflexivity].
    + right. exists v, c. split; [now right|]. auto.
Qed.

End Client.

(** X20. [get_channel_videos] against the channel's listing: it returns
    the first [max_results] videos listed when the listing holds that many
    before its first failing page; otherwise all the listed videos when no
    page fails, and the failure of the first failing page when one does.
    Items that are no videos are skipped; for [max_results <= 0] the
    result is the empty list. *)
Theorem get_channel_videos_spec
    (youtube : youtube) (channel_id : string) (max_results : Z) (w : world) :
  fst (get_channel_videos youtube channel_id max_results w)
  = expected_videos max_results (search_list youtube channel_id)
  /\ (forall videos, fst (get_channel_videos youtube channel_id max_results w)
                     = Returned videos ->
        Z.of_nat (List.length videos) <= Z.max 0 max_results).
Proof.
  split; [apply get_channel_videos_expected|].
  rewrite get_channel_videos_expected. unfold expected_videos.
  intros videos H.
  destruct (Nat.leb_spec (Z.to_nat max_results)
              (List.length (fst (listed_videos (search_list youtube channel_id)))))
    as [Hle|Hgt].
  - injection H as <-. rewrite length_firstn. lia.
  - destruct (snd (listed_videos (search_list youtube channel_id)));
      [discriminate|]. injection H as <-. lia.
Qed.

(** X21. [get_video_comments] never raises.  It returns whole pages of
    the video's comment listing, in order, up to the first failing page:
    a prefix of the listed comments, and all of them when fewer than
    [max_comments] came back.  The result may hold more than
    [max_comments] comments, but fewer than [max_comments] plus the
    largest page size; for [max_comments <= 0] it is empty and no request
    is sent. *)
Theorem get_video_comments_spec
    (youtube : youtube) (video_id : string) (max_comments : Z) (w : world) :
  let listing := commentThreads_list youtube video_id (Z.min max_comments 100) in
  exists comments w',
    get_video_comments youtube video_id max_comments w = (Returned comments, w')
    /\ (exists rest, listed_comments listing = comments ++ rest
                     /\ (Z.of_nat (List.length comments) < max_comments -> rest = []))
    /\ (forall m, pages_at_most m listing -> 0 < max_comments ->
          Z.of_nat (List.length comments) < max_comments + Z.of_nat m)
    /\ (max_comments <= 0 -> comments = [] /\ w' = w).
Proof.
  intros listing. unfold get_video_comments. fold listing.
  destruct (comments_loop_spec video_id max_comments listing [] w)
    as (result & w' & taken & rest & E & Hr & Hl & Hrest & Hb & Hz).
  simpl in Hr. subst taken.
  exists result, w'. split; [exact E|]. split; [eauto|]. split.
  - intros m Hm Hpos. apply Hb; [exact Hm|]. simpl. lia.
  - intros Hneg. apply Hz. simpl. lia.
Qed.

(** [scrape_channel_comments], by the outcome of listing the videos. *)
Lemma scrape_channel_comments_cases
    (youtube : youtube) (channel_id : string)
    (max_videos max_comments_per_video : Z) (w : world) :
  match expected_videos max_videos (search_list youtube channel_id) with
  | Raised e =>
      fst (scrape_channel_comments youtube channel_id max_videos
             max_comments_per_video w) = Raised e
  | Returned videos =>
      exists rows w',
        scrape_channel_comments youtube channel_id max_videos
          max_comments_per_video w = (Returned rows, w')
        /\ forall row, In row rows ->
             exists v c,
               In v videos /\
               In c (listed_comments
                       (commentThreads_list youtube (v_video_id v)
                          (Z.min max_comments_per_video 100))) /\
               row = with_video v c
  end.
Proof.
  unfold scrape_channel_comments.
  erewrite bind_returned by (unfold print; reflexivity).
  match goal with |- context [bind (get_channel_videos _ _ _) _ ?w0] =>
    pose proof (get_channel_videos_expected youtube channel_id max_videos w0) as Hv;
    destruct (get_channel_videos youtube channel_id max_videos w0) as [[videos|e] w1] eqn:E
  end; cbn [fst] in Hv; rewrite <- Hv.
  - erewrite bind_returned by exact E.
    erewrite bind_returned by (unfold print; reflexivity).
    match goal with |- context [scrape_videos _ ?n ?j videos _ ?r ?w2] =>
      destruct (scrape_videos_spec youtube n max_comments_per_video videos j r w2)
        as (rows & w' & E' & Hrows) end.
    exists rows, w'. split; [exact E'|]. intros row Hrow.
    destruct (Hrows row Hrow) as [[]|H]. exact H.
  - unfold bind at 1. rewrite E. reflexivity.
Qed.

(** X22. [scrape_channel_comments] raises exactly when listing the videos
    does, with the same failure; a failure while listing comments never
    stops it.  When it returns, every row of the table is a comment listed
    for one of the videos found, with that video's id and title, the URL
    built from that id, and the comment's own author, text, likes and
    publication time. *)
Theorem scrape_channel_comments_rows
    (youtube : youtube) (channel_id : string)
    (max_videos max_comments_per_video : Z) (w : world) :
  match expected_videos max_videos (search_list youtube channel_id) with
  | Raised e =>
      fst (scrape_channel_comments youtube channel_id max_videos
             max_comments_per_video w) = Raised e
  | Returned videos =>
      exists rows w',
        scrape_channel_comments youtube channel_id max_videos
          max_comments_per_video w = (Returned rows, w')
        /\ forall row, In row rows ->
             exists v c,
               In v videos /\
               In c (listed_comments
                       (commentThreads_list youtube (v_video_id v)
                          (Z.min max_comments_per_video 100))) /\
               row = with_video v c
  end.
Proof.
  apply scrape_channel_comments_cases.
Qed.

End ScraperFacts.

(* ================================================================== *)
(** * What is sent to the service, and the scraped table as input *)
(* ================================================================== *)

Module PromptFacts.
Import Analyzer Scraper SummaryFacts ScraperFacts GrouperFacts.
Local Open Scope py_scope.

Lemma string_app_assoc (a b c : string) :
  ((a ++ b) ++ c)%string = (a ++ b ++ c)%string.
Proof. induction a as [|x a IH]; simpl; [reflexivity|now rewrite IH]. Qed.

(** A part of a joined text stands in it as it is. *)
Lemma join_contains (sep x : string) (parts : list string) :
  In x parts ->
  exists pre post, String.concat sep parts = (pre ++ x ++ post)%string.
Proof.
  induction parts as [|y parts IH]; intros Hin; [destruct Hin|].
  destruct parts as [|z parts].
  - destruct Hin as [->|[]]. exists "", "". simpl.
    induction x as [|c x IHx]; simpl; [reflexivity|now rewrite <- IHx].
  - change (String.concat sep (y :: z :: parts))
      with (y ++ sep ++ String.concat sep (z :: parts))%string.
    destruct Hin as [->|Hin].
    + exists "", (sep ++ String.concat sep (z :: parts))%string. reflexivity.
    + destruct (IH Hin) as (pre & post & ->).
      exists (y ++ sep ++ pre)%string, post.
      now rewrite !string_app_assoc.
Qed.

Lemma contains_inside (a b s x : string) :
  (exists pre post, s = (pre ++ x ++ post)%string) ->
  exists pre post, (a ++ s ++ b)%string = (pre ++ x ++ post)%string.
Proof.
  intros (pre & post & ->). exists (a ++ pre)%string, (post ++ b)%string.
  now rewrite !string_app_assoc.
Qed.

(** X23. Nothing is cut from what is sent or kept: the request for a batch
    carries every comment of the batch as it is, the consolidation request
    carries every analysis as it is, and so does the text
    [merge_analyses] returns when the consolidation request fails. *)
Theorem requests_carry_every_part (api : openai) (parts : list string) (x : string) :
  In x parts ->
  (exists pre post,
     user_content (chunk_request parts) = (pre ++ x ++ post)%string) /\
  (exists pre post,
     user_content (merge_request parts) = (pre ++ x ++ post)%string) /\
  (forall w e,
     (2 <= List.length parts)%nat ->
     ChatCompletion_create api (merge_request parts) (requests w) = Raised e ->
     exists pre post,
       fst (merge_analyses api parts w) = Returned (pre ++ x ++ post)%string).
Proof.
  intros Hin. split; [|split].
  - unfold chunk_request, analysis_template. cbn [user_content].
    apply contains_inside, join_contains, Hin.
  - unfold merge_request, merge_prompt. cbn [user_content].
    apply contains_inside, join_contains, Hin.
  - intros w e Hlen He. destruct parts as [|a [|b l]]; simpl in Hlen; try lia.
    rewrite merge_analyses_many, He. cbn [fst].
    destruct (join_contains (LF ++ LF) x (a :: b :: l) Hin) as (pre & post & ->).
    eauto.
Qed.

Lemma requests_carry_every_part_witness :
  exists pre post,
    user_content (chunk_request ["Fees are too high"; "Great session, thanks"])
    = (pre ++ "Great session, thanks" ++ post)%string.
Proof.
  apply (requests_carry_every_part service_down
           ["Fees are too high"; "Great session, thanks"] "Great session, thanks").
  right. left. reflexivity.
Defined.

(** X24. The scraped table as the grouper's input: when
    [scrape_channel_comments] returns a table, every boundary
    [find_ama_dates] finds in it is the publication time of a comment
    listed for a video found whose title holds AMA in some letter case. *)
Theorem scraped_boundaries_are_comment_times
    (youtube : youtube) (channel_id : string)
    (max_videos max_comments_per_video : Z) (w w' : world)
    (rows : Grouper.DataFrame) :
  scrape_channel_comments youtube channel_id max_videos max_comments_per_video w
  = (Returned rows, w') ->
  exists videos,
    expected_videos max_videos (search_list youtube channel_id) = Returned videos /\
    forall t, In t (Grouper.find_ama_dates rows) ->
      exists v c,
        In v videos /\
        Grouper.str_contains_nocase "AMA" (Some (v_title v)) = true /\
        In c (listed_comments
                (commentThreads_list youtube (v_video_id v)
                   (Z.min max_comments_per_video 100))) /\
        t = c_published_at c.
Proof.
  intros E.
  pose proof (scrape_channel_comments_cases youtube channel_id max_videos
                max_comments_per_video w) as H.
  destruct (expected_videos max_videos (search_list youtube channel_id))
    as [videos|e].
  - destruct H as (rows0 & w0 & E0 & Hrows). rewrite E in E0.
    injection E0 as <- <-. exists videos. split; [reflexivity|].
    intros t Ht. apply find_ama_dates_In in Ht as (r & Hr & Ha & <-).
    destruct (Hrows r Hr) as (v & c & Hv & Hc & ->).
    exists v, c. repeat split; auto.
  - rewrite E in H. discriminate.
Qed.

Lemma scraped_boundaries_are_comment_times_witness :
  exists videos,
    expected_videos 2 (search_list sample_youtube "channel") = Returned videos /\
    forall t, In t (Grouper.find_ama_dates sample_scraped) ->
      exists v c,
        In v videos /\
        Grouper.str_contains_nocase "AMA" (Some (v_title v)) = true /\
        In c (listed_comments
                (commentThreads_list sample_youtube (v_video_id v) (Z.min 1 100))) /\
        t = c_published_at c.
Proof.
  apply (scraped_boundaries_are_comment_times sample_youtube "channel" 2 1
           fresh_world sample_scraped_world sample_scraped).
  reflexivity.
Defined.

End PromptFacts.
